(** * Eigen-Sandbox front end: comment threads, transcript and shared socket

    A shallow embedding of the annotation / session-sync code of the front
    end (ws.ts, FlowingDoc.tsx, ChatBar.tsx, MatrixPlayground.tsx, the
    components that App.tsx mounts) and the properties of it that the
    design document states.

    Conventions of the embedding
    - A JavaScript string is the list of its UTF-16 code units.
    - The [bubbleMessages] object (a [Record<string, ...>] used as a map
      from anchor ids [sel-<ms>] to bubble records) is a [gmap] of its
      own properties; object spread [{...prev, [id]: b}] is map insertion.
      A read [prev[id]] of a key that is not an own property finds what
      the object inherits from [Object.prototype] ([inheritedProperty]): a
      function or object, truthy, without [userComment], [aiReply] or
      [conversationHistory]. Where the code goes on with [|| default] or
      optional chaining this reads like an absent entry; where it tests the
      value itself ([handleReply]'s updater, [updateBubbleContent]) the
      branch for an existing entry is taken.
    - React state updaters queued with [updateBubbleMessages] run in the
      order they were queued, each on the result of the previous one; the
      embedding applies an updater when it is queued, so the state and the
      mirror [bubbleMessagesRef] always agree.
    - What handlers read from the page (text of a highlighted span, text of
      its paragraph, presence of a bubble element) is passed in as [Dom].
    - DOM rendering has no effect on the store and is left out, except for
      the turn list that [handleReply] renders, which is kept as a pure
      function, and for the form that a bubble holds ([Page]), which
      decides what the user can submit. *)

From Stdlib Require Import ZArith NArith Ascii String DecimalZ.
From stdpp Require Import gmap list.

#[local] Open Scope N_scope.

(** ** Strings *)

Abbreviation jsstring := (list N) (only parsing).

(** An ASCII literal as a JavaScript string. *)
Definition lit (s : string) : jsstring :=
  N_of_ascii <$> list_ascii_of_string s.

(** ECMAScript WhiteSpace and LineTerminator code points, the characters
    that [String.prototype.trim] strips. All of them are in the basic
    plane, so the test is on single code units. *)
Definition isWhiteSpace (c : N) : bool :=
  (c =? 0x09) || (c =? 0x0A) || (c =? 0x0B) || (c =? 0x0C) || (c =? 0x0D)
  || (c =? 0x20) || (c =? 0xA0) || (c =? 0x1680)
  || ((0x2000 <=? c) && (c <=? 0x200A))
  || (c =? 0x2028) || (c =? 0x2029) || (c =? 0x202F) || (c =? 0x205F)
  || (c =? 0x3000) || (c =? 0xFEFF).

Fixpoint trimStart (s : jsstring) : jsstring :=
  match s with
  | c :: s' => if isWhiteSpace c then trimStart s' else s
  | [] => []
  end.

Definition trimEnd (s : jsstring) : jsstring := rev (trimStart (rev s)).

Definition trim (s : jsstring) : jsstring := trimEnd (trimStart s).

(** Truthiness of a string value: only the empty string is falsy. *)
Definition truthy (s : jsstring) : bool :=
  match s with [] => false | _ :: _ => true end.

(** Truthiness of an optional string ([undefined] is falsy). *)
Definition truthy_opt (o : option jsstring) : bool :=
  match o with Some s => truthy s | None => false end.

(** [Number.prototype.toString] on an integer-valued number (decimal digits
    with a leading minus sign; exact below 10^21 in magnitude, far above the
    range of [Date.now()]). *)
Fixpoint digits (d : Decimal.uint) : jsstring :=
  match d with
  | Decimal.Nil => []
  | Decimal.D0 d => 48 :: digits d
  | Decimal.D1 d => 49 :: digits d
  | Decimal.D2 d => 50 :: digits d
  | Decimal.D3 d => 51 :: digits d
  | Decimal.D4 d => 52 :: digits d
  | Decimal.D5 d => 53 :: digits d
  | Decimal.D6 d => 54 :: digits d
  | Decimal.D7 d => 55 :: digits d
  | Decimal.D8 d => 56 :: digits d
  | Decimal.D9 d => 57 :: digits d
  end.

Definition signed_digits (i : Decimal.signed_int) : jsstring :=
  match i with
  | Decimal.Pos d => digits d
  | Decimal.Neg d => 45 :: digits d
  end.

Definition intToString (n : Z) : jsstring := signed_digits (Z.to_int n).

(** ** Data model of FlowingDoc.tsx *)

Inductive Role := user | ai.

Record Turn := mkTurn { role : Role; content : jsstring }.

(** One entry of [bubbleMessages]. [aiReply] and [conversationHistory] are
    optional properties; [None] is [undefined]. [userComment] is tested for
    truthiness before each use or read as [userComment || ""], so an entry
    without one carries the empty string. *)
Record Bubble := mkBubble {
  userComment : jsstring;
  aiReply : option jsstring;
  conversationHistory : option (list Turn);
}.

#[global] Instance Role_eq_dec : EqDecision Role.
Proof. solve_decision. Defined.
#[global] Instance Turn_eq_dec : EqDecision Turn.
Proof. solve_decision. Defined.
#[global] Instance Bubble_eq_dec : EqDecision Bubble.
Proof. solve_decision. Defined.

(** [h || []] for an optional history. *)
Definition historyOrEmpty (h : option (list Turn)) : list Turn := default [] h.

(** [h[h.length - 1].role === 'user'] (false on the empty list, where the
    optional-chaining form yields [undefined]). *)
Definition lastIsUser (h : list Turn) : bool :=
  match last h with
  | Some t => bool_decide (role t = user)
  | None => false
  end.

(** The page as the handlers read it. *)
Record Dom := mkDom {
  textContent : gmap jsstring jsstring;
    (* id of an element in the document -> its textContent *)
  paragraphText : gmap jsstring jsstring;
    (* id of an element -> innerText of the closest enclosing <p> *)
  bubbleContent : gset jsstring;
    (* ids t whose element bubble-t with a .bubble-content child exists *)
  docRef : bool;
    (* docRef.current is set (the component is mounted) *)
}.

(** [document.getElementById(id)?.textContent || ""] *)
Definition spanText (dom : Dom) (id : jsstring) : jsstring :=
  default [] (textContent dom !! id).

(** [document.getElementById(id)?.closest('p')?.innerText || ""] *)
Definition paraText (dom : Dom) (id : jsstring) : jsstring :=
  default [] (paragraphText dom !! id).

(** ** Wire frames *)

(** Outbound frames. [isFollowup] is [false] when the property is absent. *)
Inductive Frame :=
| CommentFrame (targetId text snippet paragraph : jsstring) (isFollowup : bool)
| BareCommentFrame (targetId text : jsstring)   (* NarrativePane: id and text only *)
| ChatFrame (text : jsstring).

(** ** Sockets *)

Inductive ReadyState := CONNECTING | OPEN | CLOSING | CLOSED.

#[global] Instance ReadyState_eq_dec : EqDecision ReadyState.
Proof. solve_decision. Defined.

(** A callback handed to [whenSocketOpen]; the only one modelled is the
    body of ChatBar's [send], which closes over the input text. *)
Inductive Callback := ChatSendCallback (input : jsstring).

(** One constructed [WebSocket]: its state, the frames handed to a
    successful [send], and the one-shot "open" listeners on it. *)
Record Socket := mkSocket {
  readyState : ReadyState;
  sentFrames : list Frame;
  openListeners : list Callback;
}.

Definition newSocket : Socket := mkSocket CONNECTING [] [].

(** A socket counts as an outstanding physical connection until it has
    started closing. *)
Definition isLive (s : Socket) : bool :=
  match readyState s with
  | CONNECTING | OPEN => true
  | CLOSING | CLOSED => false
  end.

(** ** Application state *)

Record App := mkApp {
  sockets : list Socket;       (* every WebSocket constructed, by creation order *)
  ws : option nat;             (* ws.ts: the module variable [ws] *)
  flowingDocWs : option nat;   (* FlowingDoc: wsRef.current *)
  chatBarWs : option nat;      (* ChatBar: wsRef.current *)
  bubbleMessages : gmap jsstring Bubble;
  paras : list jsstring;       (* FlowingDoc: the transcript *)
  input : jsstring;            (* ChatBar: the input box *)
}.

Definition initialApp : App := mkApp [] None None None ∅ [] [].

Definition set_sockets (f : list Socket → list Socket) (a : App) : App :=
  mkApp (f (sockets a)) (ws a) (flowingDocWs a) (chatBarWs a)
        (bubbleMessages a) (paras a) (input a).
Definition set_ws (i : option nat) (a : App) : App :=
  mkApp (sockets a) i (flowingDocWs a) (chatBarWs a)
        (bubbleMessages a) (paras a) (input a).
Definition set_flowingDocWs (i : option nat) (a : App) : App :=
  mkApp (sockets a) (ws a) i (chatBarWs a)
        (bubbleMessages a) (paras a) (input a).
Definition set_chatBarWs (i : option nat) (a : App) : App :=
  mkApp (sockets a) (ws a) (flowingDocWs a) i
        (bubbleMessages a) (paras a) (input a).
Definition setParas (f : list jsstring → list jsstring) (a : App) : App :=
  mkApp (sockets a) (ws a) (flowingDocWs a) (chatBarWs a)
        (bubbleMessages a) (f (paras a)) (input a).
Definition setInput (s : jsstring) (a : App) : App :=
  mkApp (sockets a) (ws a) (flowingDocWs a) (chatBarWs a)
        (bubbleMessages a) (paras a) s.

(** [updateBubbleMessages(updater)]: sets the state and the mirror ref. *)
Definition updateBubbleMessages
    (updater : gmap jsstring Bubble → gmap jsstring Bubble) (a : App) : App :=
  mkApp (sockets a) (ws a) (flowingDocWs a) (chatBarWs a)
        (updater (bubbleMessages a)) (paras a) (input a).

(** ** Exceptions *)

Inductive Error := SyntaxError | TypeError | InvalidStateError.

(** The outcome of running a piece of handler code: the state it leaves and
    the exception it raised, if any. *)
Record Outcome := mkOutcome { thrown : option Error; after : App }.

Definition completes (a : App) : Outcome := mkOutcome None a.

(** [try { body } catch (e) { console.error(...) }] *)
Definition tryCatch (o : Outcome) : Outcome := mkOutcome None (after o).

(** Sequencing: run [k] on the state left by [o] unless [o] threw. *)
Definition andThen (o : Outcome) (k : App → Outcome) : Outcome :=
  match thrown o with
  | Some _ => o
  | None => k (after o)
  end.

(** [new WebSocket(url)]: the new socket's index and the new state. *)
Definition newWebSocket (a : App) : nat * App :=
  (length (sockets a), set_sockets (λ ss, ss ++ [newSocket]) a).

(** [socket.send(frame)]: throws while CONNECTING, hands the frame over
    when OPEN, and silently discards it when CLOSING or CLOSED. *)
Definition socketSend (i : nat) (f : Frame) (a : App) : Outcome :=
  match sockets a !! i with
  | Some s =>
      match readyState s with
      | CONNECTING => mkOutcome (Some InvalidStateError) a
      | OPEN =>
          completes (set_sockets
            (λ ss, <[i := mkSocket OPEN (sentFrames s ++ [f]) (openListeners s)]> ss) a)
      | CLOSING | CLOSED => completes a
      end
  | None => completes a
  end.

(** Every frame handed to the network so far, over all sockets. *)
Definition allSent (a : App) : list Frame :=
  concat (sentFrames <$> sockets a).

(** ** FlowingDoc: the conversation store *)

(** The names of the properties that every plain object inherits from
    [Object.prototype]. *)
Definition objectPrototypeNames : list jsstring :=
  lit <$> [ "constructor"; "hasOwnProperty"; "isPrototypeOf";
            "propertyIsEnumerable"; "toLocaleString"; "toString"; "valueOf";
            "__proto__"; "__defineGetter__"; "__defineSetter__";
            "__lookupGetter__"; "__lookupSetter__" ]%string.

(** [key] names a property that a plain object inherits: [obj[key]] is
    truthy although [obj] has no own property [key]. *)
Definition inheritedProperty (key : jsstring) : bool :=
  bool_decide (key ∈ objectPrototypeNames).

(** The state updater of [handleReply] (the function passed to
    [updateBubbleMessages] once the reply has been rendered). The source
    pushes onto the stored array in place; the array is reachable only
    through the entry that is replaced here, so the new state is the same.
    The test [if (targetBubble)] is on [prev[targetId]], which is also
    truthy when [targetId] has no entry but names an inherited property. *)
Definition handleReply_updater (dom : Dom) (targetId text : jsstring)
    (prev : gmap jsstring Bubble) : gmap jsstring Bubble :=
  match prev !! targetId with
  | Some targetBubble =>
      let conversationHistory0 := historyOrEmpty (conversationHistory targetBubble) in
      let conversationHistory1 :=
        if (length conversationHistory0 =? 0)%nat && truthy (userComment targetBubble)
        then [mkTurn user (userComment targetBubble); mkTurn ai text]
        else if (0 <? length conversationHistory0)%nat
        then if lastIsUser conversationHistory0
             then conversationHistory0 ++ [mkTurn ai text]
             else conversationHistory0
        else conversationHistory0 in
      <[targetId := mkBubble (userComment targetBubble) (Some text)
                             (Some conversationHistory1)]> prev
  | None =>
      if inheritedProperty targetId
      then
        (* [prev[targetId]] is the inherited value: it is truthy, it has no
           comment and no history, and spreading it copies nothing *)
        <[targetId := mkBubble [] (Some text) (Some [])]> prev
      else
        <[targetId := mkBubble (spanText dom targetId) (Some text)
                               (Some [mkTurn user (spanText dom targetId);
                                      mkTurn ai text])]> prev
  end.

(** The turn list that [handleReply] builds for rendering, from the entry
    found through [bubbleMessagesRef]. This list is shown in the bubble; it
    is not what the updater above stores. *)
Definition handleReply_rendered (currentState : option Bubble) (text : jsstring)
    : list Turn :=
  let userComment0 :=
    match currentState with Some b => userComment b | None => [] end in
  let prevHistory :=
    match currentState with
    | Some b => historyOrEmpty (conversationHistory b)
    | None => []
    end in
  if (length prevHistory =? 0)%nat
  then [mkTurn user userComment0; mkTurn ai text]
  else if lastIsUser prevHistory
  then prevHistory ++ [mkTurn ai text]
  else prevHistory ++ [mkTurn user userComment0; mkTurn ai text].

(** What [handleReply] renders into the bubble: nothing unless the bubble
    element and its content area exist. *)
Definition handleReply_display (dom : Dom) (targetId text : jsstring) (a : App)
    : option (list Turn) :=
  if bool_decide (targetId ∈ bubbleContent dom)
  then Some (handleReply_rendered (bubbleMessages a !! targetId) text)
  else None.

(** [handleReply({targetId, text})]. The whole body sits in a try/catch; the
    rendering part touches only the page, then the store is updated. *)
Definition handleReply (dom : Dom) (targetId text : jsstring) (a : App) : Outcome :=
  tryCatch (completes (updateBubbleMessages (handleReply_updater dom targetId text) a)).

(** [createCommentBubble(targetId, highlightedText)]: gives up when the span
    or the document container is missing, else initialises the entry. *)
Definition createCommentBubble (dom : Dom) (targetId : jsstring) (a : App) : App :=
  if negb (bool_decide (is_Some (textContent dom !! targetId))) || negb (docRef dom)
  then a
  else updateBubbleMessages
         (λ prev, <[targetId := mkBubble [] None (Some [])]> prev) a.

(** The store effect of [updateBubbleContent(targetId, userMessage)].
    [snapshot] is the [bubbleMessages] value of the render whose closure
    runs the call. An absent [userMessage] behaves like the empty string.
    The test [if (!bubbleData)] is on [bubbleMessages[targetId]], which is
    truthy for an entry of the snapshot and for an inherited property. *)
Definition updateBubbleContent (snapshot : gmap jsstring Bubble)
    (targetId userMessage : jsstring) (a : App) : App :=
  if bool_decide (is_Some (snapshot !! targetId)) || inheritedProperty targetId
  then
    if truthy userMessage
    then updateBubbleMessages
           (λ prev,
              <[targetId :=
                  match prev !! targetId with
                  | Some b => mkBubble userMessage (aiReply b) (conversationHistory b)
                  | None => mkBubble userMessage None None
                  end]> prev) a
    else a
  else
    updateBubbleMessages
      (λ prev, <[targetId := mkBubble userMessage None None]> prev) a.

(** The guard shared by the four comment handlers:
    [if (!text || !wsRef.current) return;] *)
Definition commentGuard (text : jsstring) (a : App) : bool :=
  truthy text && bool_decide (is_Some (flowingDocWs a)).

(** [wsRef.current.send(frame)] in FlowingDoc. *)
Definition flowingDocSend (f : Frame) (a : App) : Outcome :=
  match flowingDocWs a with
  | Some i => socketSend i f a
  | None => mkOutcome (Some TypeError) a
  end.

(** The [onsubmit] handler of the form built by [createCommentBubble]
    (initial comment). [value] is the textarea's content; [highlightedText]
    is captured by the closure. There is no try/catch here. *)
Definition commentForm_onsubmit (dom : Dom) (snapshot : gmap jsstring Bubble)
    (targetId highlightedText value : jsstring) (a : App) : Outcome :=
  let commentText := trim value in
  if negb (commentGuard commentText a) then completes a
  else
    let a1 := updateBubbleMessages
                (λ prev, <[targetId := mkBubble commentText None
                                         (Some [mkTurn user commentText])]> prev) a in
    let a2 := updateBubbleContent snapshot targetId commentText a1 in
    flowingDocSend
      (CommentFrame targetId commentText highlightedText (paraText dom targetId) false) a2.

(** The updater of the comment button that [updateBubbleContent] installs
    on a bubble without a comment. *)
Definition commentButton_updater (targetId commentText : jsstring)
    (prev : gmap jsstring Bubble) : gmap jsstring Bubble :=
  let updatedHistory :=
    match prev !! targetId with
    | Some existingBubble =>
        let h := historyOrEmpty (conversationHistory existingBubble) in
        if (length h =? 0)%nat && truthy (userComment existingBubble)
        then mkTurn user (userComment existingBubble)
             :: match aiReply existingBubble with
                | Some r => if truthy r then [mkTurn ai r] else []
                | None => []
                end
        else h
    | None => []                (* prev[targetId] || {} *)
    end in
  <[targetId := mkBubble commentText None
                  (Some (updatedHistory ++ [mkTurn user commentText]))]> prev.

(** Click on that comment button. *)
Definition commentButton_click (dom : Dom)
    (targetId highlightedText value : jsstring) (a : App) : Outcome :=
  let commentText := trim value in
  if negb (commentGuard commentText a) then completes a
  else
    tryCatch
      (flowingDocSend
         (CommentFrame targetId commentText highlightedText (paraText dom targetId) false)
         (updateBubbleMessages (commentButton_updater targetId commentText) a)).

(** The updater of the follow-up button that [updateBubbleContent] installs
    on the active bubble. *)
Definition followUpButton_updater (targetId followUpText : jsstring)
    (prev : gmap jsstring Bubble) : gmap jsstring Bubble :=
  let existingHistory :=
    match prev !! targetId with
    | Some b => historyOrEmpty (conversationHistory b)
    | None => []
    end in
  <[targetId := mkBubble followUpText None
                  (Some (existingHistory ++ [mkTurn user followUpText]))]> prev.

(** Click on that follow-up button. *)
Definition followUpButton_click (dom : Dom)
    (targetId highlightedText value : jsstring) (a : App) : Outcome :=
  let followUpText := trim value in
  if negb (commentGuard followUpText a) then completes a
  else
    tryCatch
      (flowingDocSend
         (CommentFrame targetId followUpText highlightedText (paraText dom targetId) true)
         (updateBubbleMessages (followUpButton_updater targetId followUpText) a)).

(** Click on the follow-up button that [handleReply] adds below a rendered
    reply. The new history is computed from [bubbleMessagesRef.current] at
    click time and stored by a constant updater. *)
Definition replyFollowUp_click (dom : Dom)
    (targetId highlightedText value : jsstring) (a : App) : Outcome :=
  let followUpText := trim value in
  if negb (commentGuard followUpText a) then completes a
  else
    let updatedHistory :=
      match bubbleMessages a !! targetId with
      | Some b => historyOrEmpty (conversationHistory b)
      | None => []
      end ++ [mkTurn user followUpText] in
    tryCatch
      (flowingDocSend
         (CommentFrame targetId followUpText highlightedText (paraText dom targetId) true)
         (updateBubbleMessages
            (λ prev, <[targetId := mkBubble followUpText None (Some updatedHistory)]> prev)
            a)).

(** [createCommentOnSelection(range)]: the id is [sel-] followed by the
    clock reading; a span with that id is wrapped around the selection, so
    [createCommentBubble] finds it. Returns the id that was bound. *)
Definition anchorId (now : Z) : jsstring := lit "sel-" ++ intToString now.

Definition withSpan (id highlighted : jsstring) (dom : Dom) : Dom :=
  mkDom (match textContent dom !! id with
         | Some _ => textContent dom      (* an element with this id was there already *)
         | None => <[id := highlighted]> (textContent dom)
         end)
        (paragraphText dom) (bubbleContent dom) (docRef dom).

Definition createCommentOnSelection (now : Z) (highlighted : jsstring)
    (dom : Dom) (a : App) : jsstring * App :=
  let id := anchorId now in
  (id, createCommentBubble (withSpan id highlighted dom) id a).

(** The window listeners of FlowingDoc. *)
Definition narrativeHandler (detail : jsstring) (a : App) : App :=
  updateBubbleMessages (λ _, ∅) (setParas (λ _, [detail]) a).

Definition appendHandler (detail : jsstring) (a : App) : App :=
  setParas (λ p, p ++ [detail]) a.

(** ** ws.ts: the shared socket *)

(** [getWebSocket()]: the socket in [ws] unless there is none or it is
    closing or closed, in which case a new one is constructed and kept. *)
Definition getWebSocket (a : App) : nat * App :=
  let create :=
    let '(i, a1) := newWebSocket a in (i, set_ws (Some i) a1) in
  match ws a with
  | Some i =>
      match readyState <$> sockets a !! i with
      | Some CLOSED | Some CLOSING => create
      | _ => (i, a)
      end
  | None => create
  end.

(** The two-code-unit emoji prefixes of transcript lines, each followed by
    a space: U+1F9D1 for the user and U+1F916 for the assistant. *)
Definition userPrefix : jsstring := [0xD83E; 0xDDD1; 0x20].
Definition botPrefix : jsstring := [0xD83E; 0xDD16; 0x20].

(** The callback of ChatBar's [send]: the frame goes to [wsRef.current]
    (or to [getWebSocket()] when the ref is empty), then the line is added
    to the transcript through the window event "doc-append" and the input
    box is cleared. *)
Definition runCallback (cb : Callback) (a : App) : Outcome :=
  match cb with
  | ChatSendCallback text =>
      let '(i, a1) :=
        match chatBarWs a with
        | Some i => (i, a)
        | None => getWebSocket a
        end in
      andThen (socketSend i (ChatFrame text) a1)
        (λ a2, completes (setInput [] (appendHandler (userPrefix ++ text) a2)))
  end.

(** [whenSocketOpen(callback)]: runs the callback now on an open socket,
    else leaves it as a one-shot "open" listener. *)
Definition whenSocketOpen (cb : Callback) (a : App) : Outcome :=
  let '(i, a1) := getWebSocket a in
  match sockets a1 !! i with
  | Some s =>
      match readyState s with
      | OPEN => runCallback cb a1
      | _ =>
          completes (set_sockets
            (λ ss, <[i := mkSocket (readyState s) (sentFrames s)
                              (openListeners s ++ [cb])]> ss) a1)
      end
  | None => completes a1
  end.

(** The socket's "open" event: the state becomes OPEN and every listener
    runs once (an exception in one listener does not stop the next). *)
Definition socketOpened (i : nat) (a : App) : App :=
  match sockets a !! i with
  | Some s =>
      foldl (λ acc cb, after (runCallback cb acc))
            (set_sockets (λ ss, <[i := mkSocket OPEN (sentFrames s) []]> ss) a)
            (openListeners s)
  | None => a
  end.

(** The socket starts closing, or has closed (also the outcome of a
    connection error). *)
Definition socketSetState (i : nat) (r : ReadyState) (a : App) : App :=
  match sockets a !! i with
  | Some s =>
      set_sockets (λ ss, <[i := mkSocket r (sentFrames s) (openListeners s)]> ss) a
  | None => a
  end.

(** ** ChatBar.tsx *)

(** [send]: nothing happens on an input that trims to the empty string. *)
Definition send (a : App) : Outcome :=
  if negb (truthy (trim (input a))) then completes a
  else whenSocketOpen (ChatSendCallback (input a)) a.

(** ** Mount effects, in the order App.tsx renders the components *)

Definition MatrixPlayground_mount (a : App) : App := (getWebSocket a).2.

Definition FlowingDoc_mount (a : App) : App :=
  let '(i, a1) := newWebSocket a in set_flowingDocWs (Some i) a1.

Definition ChatBar_mount (a : App) : App :=
  let '(i, a1) := getWebSocket a in set_chatBarWs (Some i) a1.

Definition App_mount (a : App) : App :=
  ChatBar_mount (FlowingDoc_mount (MatrixPlayground_mount a)).

(** The number of physical connections outstanding. *)
Definition liveSockets (a : App) : nat := length (filter (λ s, isLive s = true) (sockets a)).

(** ** Inbound frames *)

#[local] Set Warnings "-register-all".

(** A value as [JSON.parse] returns it ([JUndefined] arises only from
    reading a missing property). Numbers are never inspected by the
    handlers; integers stand for them. *)
Inductive JsValue :=
| JUndefined
| JNull
| JBool (b : bool)
| JNum (n : Z)
| JStr (s : jsstring)
| JArr (items : list JsValue)
| JObj (fields : list (jsstring * JsValue)).

(** [ev.data], as far as the handlers use it: what [JSON.parse] does on it. *)
Inductive Parsed :=
| ParseError                  (* JSON.parse throws a SyntaxError *)
| ParsedValue (msg : JsValue).

Inductive Completion (A : Type) :=
| Normal (x : A)
| Throw (e : Error).
Arguments Normal {A} x.
Arguments Throw {A} e.

(** The value of the last field named [key] (a repeated key keeps its last
    value in [JSON.parse]). *)
Fixpoint lookupField (key : jsstring) (fields : list (jsstring * JsValue))
    : option JsValue :=
  match fields with
  | [] => None
  | (k, v) :: rest =>
      match lookupField key rest with
      | Some v' => Some v'
      | None => if bool_decide (k = key) then Some v else None
      end
  end.

(** [msg.key] for the keys the handlers read ([kind], [text], [targetId]):
    a TypeError on [null] and [undefined], the field on an object, and
    [undefined] on primitives and arrays, which have no such property. *)
Definition getProp (msg : JsValue) (key : jsstring) : Completion JsValue :=
  match msg with
  | JNull | JUndefined => Throw TypeError
  | JObj fields => Normal (default JUndefined (lookupField key fields))
  | _ => Normal JUndefined
  end.

(** [v === "s"] *)
Definition strictEqualsString (v : JsValue) (s : jsstring) : bool :=
  match v with
  | JStr s' => bool_decide (s' = s)
  | _ => false
  end.

(** What a message handler hands on, with the values as read from the
    frame. *)
Inductive Dispatch :=
| Narrative (detail : JsValue)
    (* window event "narrative" with detail msg.text *)
| DocAppendBot (text : JsValue)
    (* window event "doc-append" with the bot prefix and msg.text *)
| HandleReply (targetId text : JsValue)
    (* handleReply(msg) *)
| ParasAppendBot (text : JsValue).
    (* setParas(p => [...p, bot prefix and msg.text]) *)

(** Read [kind]; when it is [wanted], read the listed property and hand on
    what [k] builds from it. *)
Definition onKind (msg : JsValue) (wanted : jsstring)
    (k : JsValue → Completion (list Dispatch)) : Completion (list Dispatch) :=
  match getProp msg (lit "kind") with
  | Throw e => Throw e
  | Normal kind =>
      if strictEqualsString kind wanted then k msg else Normal []
  end.

Definition readProp (msg : JsValue) (key : jsstring)
    (k : JsValue → Completion (list Dispatch)) : Completion (list Dispatch) :=
  match getProp msg key with
  | Throw e => Throw e
  | Normal v => k v
  end.

(** MatrixPlayground's message listener on the shared socket. *)
Definition handleMsg (data : Parsed) : Completion (list Dispatch) :=
  match data with
  | ParseError => Throw SyntaxError
  | ParsedValue msg =>
      onKind msg (lit "matrix")
        (λ msg, readProp msg (lit "text") (λ text, Normal [Narrative text]))
  end.

(** ChatBar's message listener on the shared socket. *)
Definition ChatBar_handler (data : Parsed) : Completion (list Dispatch) :=
  match data with
  | ParseError => Throw SyntaxError
  | ParsedValue msg =>
      onKind msg (lit "chat-reply")
        (λ msg, readProp msg (lit "text") (λ text, Normal [DocAppendBot text]))
  end.

(** The try block of FlowingDoc's [ws.onmessage]. *)
Definition FlowingDoc_onmessage_body (data : Parsed) : Completion (list Dispatch) :=
  match data with
  | ParseError => Throw SyntaxError
  | ParsedValue msg =>
      match
        onKind msg (lit "reply")
          (λ msg, readProp msg (lit "targetId") (λ targetId,
                  readProp msg (lit "text") (λ text,
                  Normal [HandleReply targetId text])))
      with
      | Throw e => Throw e
      | Normal first =>
          match
            onKind msg (lit "chat-reply")
              (λ msg, readProp msg (lit "text") (λ text,
                      Normal [ParasAppendBot text]))
          with
          | Throw e => Throw e
          | Normal second => Normal (first ++ second)
          end
      end
  end.

(** FlowingDoc's [ws.onmessage]: the body inside try/catch. *)
Definition FlowingDoc_onmessage (data : Parsed) : Completion (list Dispatch) :=
  match FlowingDoc_onmessage_body data with
  | Throw _ => Normal []
  | Normal ds => Normal ds
  end.

(** The effect on the application of what was handed on, for the payloads
    the components declare ([string]); other payloads have no meaning in
    the typed state and yield [None]. *)
Definition perform (dom : Dom) (d : Dispatch) (a : App) : option App :=
  match d with
  | Narrative (JStr detail) => Some (narrativeHandler detail a)
  | DocAppendBot (JStr text) => Some (appendHandler (botPrefix ++ text) a)
  | HandleReply (JStr targetId) (JStr text) =>
      Some (after (handleReply dom targetId text a))
  | ParasAppendBot (JStr text) => Some (setParas (λ p, p ++ [botPrefix ++ text]) a)
  | _ => None
  end.

(** ** Threads *)

(** The thread of an anchor: the stored turn list. *)
Definition readThread (id : jsstring) (a : App) : list Turn :=
  match bubbleMessages a !! id with
  | Some b => historyOrEmpty (conversationHistory b)
  | None => []
  end.

(** The source stores no status; the design document's status is a
    function of the turn list: DRAFT when it is empty, PENDING when it ends
    with a USER turn, SETTLED when it ends with an ASSISTANT turn. *)
Inductive Status := DRAFT | PENDING | SETTLED.

Definition statusOf (turns : list Turn) : Status :=
  match last turns with
  | None => DRAFT
  | Some t => match role t with user => PENDING | ai => SETTLED end
  end.

Definition otherRole (r : Role) : Role :=
  match r with user => ai | ai => user end.

(** Roles alternate strictly, the first turn being [r]. *)
Fixpoint alternatesFrom (r : Role) (turns : list Turn) : bool :=
  match turns with
  | [] => true
  | t :: rest => bool_decide (role t = r) && alternatesFrom (otherRole r) rest
  end.

Definition alternates (turns : list Turn) : bool := alternatesFrom user turns.

(** The entry of [id] is waiting for a reply: its thread ends with a USER
    turn, or it has no thread yet but carries a comment without a reply
    (the form in which [updateBubbleContent] leaves a fresh entry). *)
Definition awaitingReply (id : jsstring) (a : App) : bool :=
  match bubbleMessages a !! id with
  | Some b =>
      match last (historyOrEmpty (conversationHistory b)) with
      | Some t => bool_decide (role t = user)
      | None => truthy (userComment b) && negb (truthy_opt (aiReply b))
      end
  | None => false
  end.

(** ** Runs of store operations *)

(** The operations on the conversation store, named after the design
    document: creating an anchor, the four handlers that submit a user
    turn, the arrival of a reply, and the session reset. *)
Inductive Op :=
| createAnchor (now : Z) (highlighted : jsstring)
| submitInitial (snapshot : gmap jsstring Bubble)
                (targetId highlightedText value : jsstring)
| submitCommentButton (targetId highlightedText value : jsstring)
| submitFollowUp (targetId highlightedText value : jsstring)
| submitReplyFollowUp (targetId highlightedText value : jsstring)
| applyAssistantReply (targetId text : jsstring)
| sessionReset (detail : jsstring).

Definition step (dom : Dom) (op : Op) (a : App) : App :=
  match op with
  | createAnchor now highlighted => (createCommentOnSelection now highlighted dom a).2
  | submitInitial snapshot targetId highlightedText value =>
      after (commentForm_onsubmit dom snapshot targetId highlightedText value a)
  | submitCommentButton targetId highlightedText value =>
      after (commentButton_click dom targetId highlightedText value a)
  | submitFollowUp targetId highlightedText value =>
      after (followUpButton_click dom targetId highlightedText value a)
  | submitReplyFollowUp targetId highlightedText value =>
      after (replyFollowUp_click dom targetId highlightedText value a)
  | applyAssistantReply targetId text => after (handleReply dom targetId text a)
  | sessionReset detail => narrativeHandler detail a
  end.

(** The states after each operation of a run. *)
Fixpoint run (trace : list (Dom * Op)) (a : App) : list App :=
  match trace with
  | [] => []
  | (dom, op) :: rest => step dom op a :: run rest (step dom op a)
  end.

(** A user turn is submitted only to an anchor that is not waiting for a
    reply (the page shows no submit form on a waiting bubble). *)
Definition submitsWhenIdle (op : Op) (a : App) : bool :=
  match op with
  | submitInitial _ targetId _ _
  | submitCommentButton targetId _ _
  | submitFollowUp targetId _ _
  | submitReplyFollowUp targetId _ _ => negb (awaitingReply targetId a)
  | _ => true
  end.

Fixpoint disciplined (trace : list (Dom * Op)) (a : App) : bool :=
  match trace with
  | [] => true
  | (dom, op) :: rest => submitsWhenIdle op a && disciplined rest (step dom op a)
  end.

(** Every stored thread alternates, starting with USER. *)
Definition allAlternate (a : App) : Prop :=
  ∀ id, alternates (readThread id a) = true.

(** A page for the examples: one highlighted span [sel-1], its bubble on
    screen, the document mounted. *)
Definition exampleDom : Dom :=
  mkDom {[ lit "sel-1" := lit "orig snippet" ]}
        {[ lit "sel-1" := lit "The orig snippet is here." ]}
        {[ lit "sel-1" ]} true.

(** The application once mounted and both sockets have opened. *)
Definition readyApp : App := socketOpened 1 (socketOpened 0 (App_mount initialApp)).

(** The turn list that the reply updater stores for an anchor that has an
    entry, by cases on the last stored turn. *)
Definition repliedHistory (b : Bubble) (text : jsstring) : list Turn :=
  let h := historyOrEmpty (conversationHistory b) in
  match last h with
  | None => if truthy (userComment b)
            then [mkTurn user (userComment b); mkTurn ai text] else []
  | Some t => if bool_decide (role t = user) then h ++ [mkTurn ai text] else h
  end.

(** Every entry of the store holds an alternating turn list. *)
Definition storeAlternates (m : gmap jsstring Bubble) : Prop :=
  ∀ id b, m !! id = Some b →
    alternates (historyOrEmpty (conversationHistory b)) = true.

(** A run with a duplicate reply and a follow-up, on anchor [sel-1]. *)
Definition exampleTrace : list (Dom * Op) :=
  [ (exampleDom, createAnchor 1 (lit "orig snippet"));
    (exampleDom, submitInitial ∅ (lit "sel-1") (lit "orig snippet") (lit " why? "));
    (exampleDom, applyAssistantReply (lit "sel-1") (lit "because..."));
    (exampleDom, applyAssistantReply (lit "sel-1") (lit "because..."));
    (exampleDom, submitReplyFollowUp (lit "sel-1") (lit "orig snippet") (lit "and then?"));
    (exampleDom, applyAssistantReply (lit "sel-1") (lit "then this"));
    (exampleDom, applyAssistantReply (lit "sel-9") (lit "late reply")) ].

(** A state in which the thread of [sel-1] is
    [[{USER, "x"}; {ASSISTANT, "y"}]]: the anchor was created, "x" was
    submitted and "y" came back. *)
Definition settledApp : App :=
  foldl (λ a op, step exampleDom op a) readyApp
    [ createAnchor 1 (lit "orig snippet");
      submitFollowUp (lit "sel-1") (lit "orig snippet") (lit "x");
      applyAssistantReply (lit "sel-1") (lit "y") ].

(** The state after the user has sent the chat line "hi". *)
Definition chattedApp : App := after (send (setInput (lit "hi") readyApp)).

(** Every live socket is the one held in [ws]. *)
Definition onlySharedLive (a : App) : Prop :=
  ∀ j s, sockets a !! j = Some s → isLive s = true → ws a = Some j.

(** What a listener handed on ([[]] when it threw). *)
Definition dispatched (c : Completion (list Dispatch)) : list Dispatch :=
  match c with Normal ds => ds | Throw _ => [] end.

(** The frame [{"kind": kind, "text": text}]. *)
Definition textFrame (kind text : string) : Parsed :=
  ParsedValue (JObj [(lit "kind", JStr (lit kind)); (lit "text", JStr (lit text))]).

(** The content of the latest USER turn of a turn list. *)
Definition lastUserContent (h : list Turn) : option jsstring :=
  content <$> last (filter (λ t, role t = user) h).

(** The entry's [userComment] is the content of its latest USER turn, if
    it has one. *)
Definition commentIsLatest (b : Bubble) : Prop :=
  match lastUserContent (historyOrEmpty (conversationHistory b)) with
  | Some c => userComment b = c
  | None => True
  end.

Definition commentsAreLatest (a : App) : Prop :=
  ∀ id b, bubbleMessages a !! id = Some b → commentIsLatest b.

(** ** NarrativePane.tsx (an earlier pane that App.tsx does not mount) *)

(** The click handler of its floating Comment button: [answer] is what
    [prompt()] returned ([None] when dismissed); the text is tested as it
    is, without trimming. [surroundThrows] says that the saved range cuts
    through an element, so that [Range.surroundContents] raises; the
    handler has no try/catch, and it ends there with the span not in the
    document and nothing sent. Otherwise it yields the id bound to the new
    span and the frame handed to [send], or nothing when it returns
    early. *)
Definition NarrativePane_comment (now : Z) (answer : option jsstring)
    (hasSelection hasSocket surroundThrows : bool)
    : Completion (option (jsstring * Frame)) :=
  match answer with
  | Some text =>
      if negb (truthy text) || negb hasSelection || negb hasSocket
      then Normal None
      else if surroundThrows then Throw InvalidStateError
      else Normal (Some (anchorId now, BareCommentFrame (anchorId now) text))
  | None => Normal None
  end.

(** ** Further definitions for the properties of the code *)

(** The anchor an operation works on ([None] for the session reset, which
    works on all of them). *)
Definition opAnchor (op : Op) : option jsstring :=
  match op with
  | createAnchor now _ => Some (anchorId now)
  | submitInitial _ targetId _ _
  | submitCommentButton targetId _ _
  | submitFollowUp targetId _ _
  | submitReplyFollowUp targetId _ _
  | applyAssistantReply targetId _ => Some targetId
  | sessionReset _ => None
  end.

(** The operations that only ever add turns at the end of a thread. *)
Definition extendsThread (op : Op) : bool :=
  match op with
  | submitCommentButton _ _ _ | submitFollowUp _ _ _
  | submitReplyFollowUp _ _ _ | applyAssistantReply _ _ => true
  | _ => false
  end.

(** The frames handed to the network on socket [i]. *)
Definition sentOn (i : nat) (a : App) : list Frame :=
  match sockets a !! i with
  | Some s => sentFrames s
  | None => []
  end.

(** The line at the top of a bubble as [handleReply] and
    [updateBubbleContent] write it when they rebuild the bubble (three
    places in FlowingDoc.tsx):
    ["${t.length > 45 ? t.substring(0, 42) + '...' : t}"]
    between double quotes (code unit 34). *)
Definition highlightedLabel (highlightedText : jsstring) : jsstring :=
  34 :: (if (45 <? length highlightedText)%nat
         then take 42 highlightedText ++ lit "..."
         else highlightedText) ++ [34].

(** The line at the top of a bubble as [createCommentBubble] writes it
    above the comment form: ["${highlightedText}"], the whole text. *)
Definition createCommentBubble_label (highlightedText : jsstring) : jsstring :=
  34 :: highlightedText ++ [34].

(** *** The shared socket used on its own *)

(** What can happen to the shared socket when every component goes through
    ws.ts: MatrixPlayground and ChatBar mount, the user sends a chat line,
    a socket opens, a socket starts closing or closes. *)
Inductive SharedOp :=
| mountMatrixPlayground
| mountChatBar
| chatSend (text : jsstring)
| socketOpens (i : nat)
| socketCloses (i : nat) (r : ReadyState).

Definition stepShared (op : SharedOp) (a : App) : App :=
  match op with
  | mountMatrixPlayground => MatrixPlayground_mount a
  | mountChatBar => ChatBar_mount a
  | chatSend text => after (send (setInput text a))
  | socketOpens i => socketOpened i a
  | socketCloses i r => socketSetState i r a
  end.

(** A socket opens only from CONNECTING, and the states it is moved to by
    a close or an error are CLOSING and CLOSED. *)
Definition possible (op : SharedOp) (a : App) : bool :=
  match op with
  | socketOpens i =>
      bool_decide (readyState <$> sockets a !! i = Some CONNECTING)
  | socketCloses i r => bool_decide (r = CLOSING ∨ r = CLOSED)
  | _ => true
  end.

Fixpoint runShared (ops : list SharedOp) (a : App) : App :=
  match ops with
  | [] => a
  | op :: rest => runShared rest (stepShared op a)
  end.

Fixpoint allPossible (ops : list SharedOp) (a : App) : bool :=
  match ops with
  | [] => true
  | op :: rest => possible op a && allPossible rest (stepShared op a)
  end.

(** [a'] has no live socket that [a] did not have, and the same [ws]. *)
Definition liveWithin (a a' : App) : Prop :=
  ws a' = ws a
  ∧ ∀ j s', sockets a' !! j = Some s' → isLive s' = true →
            ∃ s, sockets a !! j = Some s ∧ isLive s = true.

(** The chat frames and the transcript lines of a list of deferred sends. *)
Definition callbackFrame (cb : Callback) : Frame :=
  match cb with ChatSendCallback text => ChatFrame text end.

Definition callbackLine (cb : Callback) : jsstring :=
  match cb with ChatSendCallback text => userPrefix ++ text end.

(** *** NarrativePane.tsx: the message listener *)

(** What NarrativePane's [ws.onmessage] does with a frame. *)
Inductive NarrativePaneAction :=
| PushSentence (text : JsValue)
    (* setSentences(s => [...s.slice(-9), msg.text]) *)
| InsertReply (msg : JsValue).
    (* insertReply(msg) *)

(** [ws.onmessage] of NarrativePane; there is no try/catch. *)
Definition NarrativePane_onmessage (data : Parsed)
    : Completion (list NarrativePaneAction) :=
  match data with
  | ParseError => Throw SyntaxError
  | ParsedValue msg =>
      match getProp msg (lit "kind") with
      | Throw e => Throw e
      | Normal kind =>
          match
            (if strictEqualsString kind (lit "matrix")
             then match getProp msg (lit "text") with
                  | Throw e => Throw e
                  | Normal text => Normal [PushSentence text]
                  end
             else Normal [])
          with
          | Throw e => Throw e
          | Normal first =>
              Normal (first ++ if strictEqualsString kind (lit "reply")
                               then [InsertReply msg] else [])
          end
      end
  end.

(** The updater [s => [...s.slice(-9), text]]: the last nine sentences,
    then the new one. *)
Definition pushSentence (text : jsstring) (s : list jsstring) : list jsstring :=
  drop (length s - 9) s ++ [text].

(** *** ChatDrawer.tsx *)

Inductive Sender := senderUser | senderBot.

(** The state of a ChatDrawer: its log, its input box and its own socket
    ([None] before the mount effect has run), of which the ready state and
    the frames handed over are kept. *)
Record ChatDrawer := mkChatDrawer {
  drawerLog : list (Sender * jsstring);
  drawerInput : jsstring;
  drawerSocket : option (ReadyState * list Frame);
}.

(** ChatDrawer's [send]. The log is extended before [send] is called on the
    socket, and the input is cleared after it. *)
Definition ChatDrawer_send (c : ChatDrawer) : option Error * ChatDrawer :=
  match drawerSocket c with
  | Some (r, sent) =>
      if negb (truthy (trim (drawerInput c))) then (None, c)
      else
        let logged := drawerLog c ++ [(senderUser, drawerInput c)] in
        match r with
        | CONNECTING =>
            (Some InvalidStateError,
             mkChatDrawer logged (drawerInput c) (Some (r, sent)))
        | OPEN =>
            (None,
             mkChatDrawer logged []
               (Some (r, sent ++ [ChatFrame (drawerInput c)])))
        | CLOSING | CLOSED =>
            (None, mkChatDrawer logged [] (Some (r, sent)))
        end
  | None => (None, c)
  end.

(** ** The page: bubbles and their forms *)

(** The form inside the content area of a bubble. A bubble shows at most
    one: the comment form that [createCommentBubble] builds, or the
    follow-up form that [handleReply] builds under the reply it renders.

    [updateBubbleContent] has forms of its own (the comment button and the
    follow-up button above), but it builds neither on the page. Its only
    call is in the [onsubmit] of the comment form, and that handler belongs
    to the first render of the component ([handleMouseUp] is registered by
    an effect without dependencies), where [bubbleMessages] is [{}] and
    [activeBubbleId] is [null]. There, for the anchor id of the form,
    [bubbleData] is the default entry that carries the submitted comment,
    so the comment form is not shown, and [activeBubbleId === targetId]
    fails, so the reply box is not shown. *)
Inductive BubbleForm := CommentForm | FollowUpForm.

Record Page := mkPage {
  pageApp : App;
  bubbleForms : gmap jsstring BubbleForm;
    (* anchor id -> the form that the content area of its bubble holds *)
}.

(** What can happen on the page once App.tsx has mounted. *)
Inductive PageEvent :=
| selectionMade (now : Z) (highlighted : jsstring)
    (* text of the document is selected; the timer of handleMouseUp fires *)
| commentFormSubmitted (targetId highlightedText value : jsstring)
    (* the comment form of bubble targetId is submitted *)
| followUpFormSubmitted (targetId highlightedText value : jsstring)
    (* the follow-up form of bubble targetId is submitted *)
| replyArrived (targetId text : jsstring)
    (* a reply frame is handed to handleReply *)
| narrativeArrived (detail : jsstring)
| lineAppended (detail : jsstring)
| socketOrChat (op : SharedOp).
    (* a component mounts, a chat line is sent, a socket opens or closes *)

(** One event. A form can be submitted only while it is on the page; a
    submit event for a form that is not there does not happen, and the page
    stays as it is.
    - [createCommentBubble] empties the content area and puts the comment
      form there.
    - The comment form's [onsubmit], past its guard, calls
      [updateBubbleContent], which empties the content area when it finds
      the bubble and builds no form (see [BubbleForm]).
    - [handleReply] empties the content area when it finds the bubble and
      puts the follow-up form under the turns it renders.
    - The follow-up form's click handler, past its guard, removes the form
      right after the store update and before the frame is sent.
    - [narrativeHandler] removes the bubbles under [docRef]; the bubbles
      are children of [document.body], so they and their forms stay. *)
Definition pageStep (dom : Dom) (ev : PageEvent) (p : Page) : Page :=
  let a := pageApp p in
  match ev with
  | selectionMade now highlighted =>
      let id := anchorId now in
      let dom' := withSpan id highlighted dom in
      mkPage (createCommentOnSelection now highlighted dom a).2
             (if bool_decide (is_Some (textContent dom' !! id)) && docRef dom'
              then <[id := CommentForm]> (bubbleForms p)
              else bubbleForms p)
  | commentFormSubmitted targetId highlightedText value =>
      match bubbleForms p !! targetId with
      | Some CommentForm =>
          mkPage (after (commentForm_onsubmit dom ∅ targetId highlightedText value a))
                 (if commentGuard (trim value) a
                     && bool_decide (targetId ∈ bubbleContent dom)
                  then delete targetId (bubbleForms p)
                  else bubbleForms p)
      | _ => p
      end
  | followUpFormSubmitted targetId highlightedText value =>
      match bubbleForms p !! targetId with
      | Some FollowUpForm =>
          mkPage (after (replyFollowUp_click dom targetId highlightedText value a))
                 (if commentGuard (trim value) a
                  then delete targetId (bubbleForms p)
                  else bubbleForms p)
      | _ => p
      end
  | replyArrived targetId text =>
      mkPage (after (handleReply dom targetId text a))
             (if bool_decide (targetId ∈ bubbleContent dom)
              then <[targetId := FollowUpForm]> (bubbleForms p)
              else bubbleForms p)
  | narrativeArrived detail => mkPage (narrativeHandler detail a) (bubbleForms p)
  | lineAppended detail => mkPage (appendHandler detail a) (bubbleForms p)
  | socketOrChat op => mkPage (stepShared op a) (bubbleForms p)
  end.

(** The pages after each event of a run. *)
Fixpoint pageRun (events : list (Dom * PageEvent)) (p : Page) : list Page :=
  match events with
  | [] => []
  | (dom, ev) :: rest => pageStep dom ev p :: pageRun rest (pageStep dom ev p)
  end.

(** The page when App.tsx has mounted: no bubble yet. *)
Definition mountedPage : Page := mkPage (App_mount initialApp) ∅.

(** A follow-up form is on the page only for an anchor that is not waiting
    for a reply. *)
Definition followUpFormsOnIdle (p : Page) : Prop :=
  ∀ id, bubbleForms p !! id = Some FollowUpForm →
        awaitingReply id (pageApp p) = false.

(** A session on the page: the sockets open, a snippet is selected and
    commented, the reply arrives twice, the user follows up and clicks
    again at once, and the second reply arrives. *)
Definition examplePageRun : list (Dom * PageEvent) :=
  [ (exampleDom, socketOrChat (socketOpens 0));
    (exampleDom, socketOrChat (socketOpens 1));
    (exampleDom, selectionMade 1 (lit "orig snippet"));
    (exampleDom, commentFormSubmitted (lit "sel-1") (lit "orig snippet") (lit " why? "));
    (exampleDom, replyArrived (lit "sel-1") (lit "because..."));
    (exampleDom, replyArrived (lit "sel-1") (lit "because..."));
    (exampleDom, followUpFormSubmitted (lit "sel-1") (lit "orig snippet") (lit "and then?"));
    (exampleDom, followUpFormSubmitted (lit "sel-1") (lit "orig snippet") (lit "and then?"));
    (exampleDom, replyArrived (lit "sel-1") (lit "then this")) ].


(** * Properties *)

(** ** Strings *)

Lemma trimStart_whitespace (s : jsstring) :
  forallb isWhiteSpace s = true → trimStart s = [].
Proof.
  induction s as [|c s IH]; simpl; [done|].
  intros [Hc Hs]%andb_prop. rewrite Hc. auto.
Qed.

Lemma trim_whitespace (s : jsstring) :
  forallb isWhiteSpace s = true → trim s = [].
Proof.
  intros H. unfold trim, trimEnd. by rewrite (trimStart_whitespace s H).
Qed.

Lemma digits_inj d1 d2 : digits d1 = digits d2 → d1 = d2.
Proof.
  revert d2. induction d1; intros [] H; simpl in H;
    try discriminate; try reflexivity; f_equal; apply IHd1; congruence.
Qed.

Lemma digits_no_minus d s : digits d ≠ 45 :: s.
Proof. destruct d; simpl; congruence. Qed.

Lemma intToString_inj n1 n2 : intToString n1 = intToString n2 → n1 = n2.
Proof.
  unfold intToString. intros H.
  rewrite <- (DecimalZ.of_to n1), <- (DecimalZ.of_to n2).
  destruct (Z.to_int n1) as [d1|d1], (Z.to_int n2) as [d2|d2]; simpl in H.
  - by rewrite (digits_inj _ _ H).
  - by apply digits_no_minus in H.
  - symmetry in H. by apply digits_no_minus in H.
  - injection H as H. by rewrite (digits_inj _ _ H).
Qed.

Lemma anchorId_inj now1 now2 : anchorId now1 = anchorId now2 → now1 = now2.
Proof.
  unfold anchorId. intros H. apply app_inv_head in H. by apply intToString_inj.
Qed.

(** ** Alternation of turn lists *)

(** Appending a turn keeps the alternation when the new role differs from
    the last one (or is the expected first role on an empty list). *)
Lemma alternatesFrom_snoc r h t :
  alternatesFrom r h = true →
  match last h with
  | Some t' => role t = otherRole (role t')
  | None => role t = r
  end →
  alternatesFrom r (h ++ [t]) = true.
Proof.
  revert r. induction h as [|x h IH]; intros r Halt Hlast; simpl in *.
  - rewrite Hlast. by rewrite bool_decide_eq_true_2.
  - apply andb_prop in Halt as [Hx Hh]. rewrite Hx. simpl.
    apply IH; [done|].
    destruct h as [|y h]; simpl in *.
    + apply bool_decide_eq_true_1 in Hx. by rewrite <- Hx.
    + destruct (last (y :: h)) eqn:E; [done|]. by apply last_None in E.
Qed.

Lemma alternates_snoc_ai h text t :
  alternates h = true → last h = Some t → role t = user →
  alternates (h ++ [mkTurn ai text]) = true.
Proof.
  intros Halt Hl Hr. apply alternatesFrom_snoc; [done|].
  rewrite Hl, Hr. done.
Qed.

Lemma alternates_snoc_user h text :
  alternates h = true →
  match last h with Some t => role t = ai | None => True end →
  alternates (h ++ [mkTurn user text]) = true.
Proof.
  intros Halt Hl. apply alternatesFrom_snoc; [done|].
  destruct (last h) as [t|]; [|done]. by rewrite Hl.
Qed.

(** ** What the handlers leave alone *)

Lemma socketSend_store i f a :
  bubbleMessages (after (socketSend i f a)) = bubbleMessages a
  ∧ paras (after (socketSend i f a)) = paras a.
Proof.
  unfold socketSend. destruct (sockets a !! i) as [s|]; [|done].
  by destruct (readyState s).
Qed.

Lemma flowingDocSend_store f a :
  bubbleMessages (after (flowingDocSend f a)) = bubbleMessages a
  ∧ paras (after (flowingDocSend f a)) = paras a.
Proof.
  unfold flowingDocSend. destruct (flowingDocWs a); [|done].
  apply socketSend_store.
Qed.

Lemma handleReply_store dom id text a :
  bubbleMessages (after (handleReply dom id text a))
  = handleReply_updater dom id text (bubbleMessages a).
Proof. reflexivity. Qed.

Lemma handleReply_updater_some dom id text prev b :
  prev !! id = Some b →
  handleReply_updater dom id text prev
  = <[id := mkBubble (userComment b) (Some text) (Some (repliedHistory b text))]> prev.
Proof.
  intros Hb. unfold handleReply_updater, repliedHistory. rewrite Hb.
  do 2 f_equal. unfold lastIsUser.
  destruct (historyOrEmpty (conversationHistory b)) as [|t h] eqn:Hh; simpl.
  - by destruct (truthy (userComment b)).
  - destruct (last (t :: h)) eqn:E; [done|]. by apply last_None in E.
Qed.

Lemma handleReply_updater_none dom id text prev :
  prev !! id = None → inheritedProperty id = false →
  handleReply_updater dom id text prev
  = <[id := mkBubble (spanText dom id) (Some text)
                     (Some [mkTurn user (spanText dom id); mkTurn ai text])]> prev.
Proof. intros Hb Hi. unfold handleReply_updater. by rewrite Hb, Hi. Qed.

Lemma handleReply_updater_inherited dom id text prev :
  prev !! id = None → inheritedProperty id = true →
  handleReply_updater dom id text prev
  = <[id := mkBubble [] (Some text) (Some [])]> prev.
Proof. intros Hb Hi. unfold handleReply_updater. by rewrite Hb, Hi. Qed.

(** The ids that [createCommentOnSelection] allocates name no inherited
    property. *)
Lemma anchorId_not_inherited now : inheritedProperty (anchorId now) = false.
Proof.
  apply bool_decide_eq_false_2. unfold objectPrototypeNames, anchorId.
  intros Hin. simpl in Hin.
  repeat (apply elem_of_cons in Hin as [Hin|Hin]; [discriminate Hin|]).
  by apply elem_of_nil in Hin.
Qed.

Lemma repliedHistory_alternates b text :
  alternates (historyOrEmpty (conversationHistory b)) = true →
  alternates (repliedHistory b text) = true.
Proof.
  intros Halt. unfold repliedHistory.
  destruct (last (historyOrEmpty (conversationHistory b))) as [t|] eqn:Hl.
  - case_bool_decide as Hr; [|done]. by eapply alternates_snoc_ai.
  - by destruct (truthy (userComment b)).
Qed.

Lemma repliedHistory_idem b text :
  repliedHistory (mkBubble (userComment b) (Some text) (Some (repliedHistory b text))) text
  = repliedHistory b text.
Proof.
  unfold repliedHistory at 1. simpl.
  unfold repliedHistory.
  destruct (last (historyOrEmpty (conversationHistory b))) as [t|] eqn:Hl.
  - case_bool_decide as Hr.
    + by rewrite last_snoc.
    + rewrite Hl. by rewrite bool_decide_eq_false_2.
  - by destruct (truthy (userComment b)) eqn:Hu.
Qed.

(** A second identical reply changes nothing at all, whatever the state. *)
Lemma handleReply_idempotent dom id text a :
  after (handleReply dom id text (after (handleReply dom id text a)))
  = after (handleReply dom id text a).
Proof.
  unfold handleReply, tryCatch, completes, updateBubbleMessages. simpl. f_equal.
  destruct (bubbleMessages a !! id) as [b|] eqn:Hb.
  - rewrite (handleReply_updater_some _ _ _ _ b Hb).
    erewrite handleReply_updater_some by apply lookup_insert_eq.
    rewrite insert_insert_eq. simpl. by rewrite repliedHistory_idem.
  - destruct (inheritedProperty id) eqn:Hi.
    + rewrite (handleReply_updater_inherited _ _ _ _ Hb Hi).
      erewrite handleReply_updater_some by apply lookup_insert_eq.
      rewrite insert_insert_eq. reflexivity.
    + rewrite (handleReply_updater_none _ _ _ _ Hb Hi).
      erewrite handleReply_updater_some by apply lookup_insert_eq.
      rewrite insert_insert_eq. reflexivity.
Qed.

(** ** Alternation is kept by the store operations *)

Lemma allAlternate_store a : allAlternate a ↔ storeAlternates (bubbleMessages a).
Proof.
  unfold allAlternate, storeAlternates, readThread. split.
  - intros H id b Hb. specialize (H id). by rewrite Hb in H.
  - intros H id. destruct (bubbleMessages a !! id) as [b|] eqn:Hb; [eauto|done].
Qed.

Lemma storeAlternates_insert m id b :
  storeAlternates m →
  alternates (historyOrEmpty (conversationHistory b)) = true →
  storeAlternates (<[id := b]> m).
Proof.
  intros Hm Hb id' b'. rewrite lookup_insert.
  case_decide; [intros [= <-]; done | apply Hm].
Qed.

Lemma handleReply_updater_alternates dom id text m :
  storeAlternates m → storeAlternates (handleReply_updater dom id text m).
Proof.
  intros Hm. destruct (m !! id) as [b|] eqn:Hb.
  - rewrite (handleReply_updater_some _ _ _ _ b Hb).
    apply storeAlternates_insert; [done|].
    apply repliedHistory_alternates. eauto.
  - destruct (inheritedProperty id) eqn:Hi.
    + rewrite (handleReply_updater_inherited _ _ _ _ Hb Hi).
      by apply storeAlternates_insert.
    + rewrite (handleReply_updater_none _ _ _ _ Hb Hi).
      by apply storeAlternates_insert.
Qed.

Lemma updateBubbleContent_alternates snapshot id msg a :
  allAlternate a → allAlternate (updateBubbleContent snapshot id msg a).
Proof.
  rewrite !allAlternate_store. intros Hm. unfold updateBubbleContent.
  destruct (bool_decide (is_Some (snapshot !! id)) || inheritedProperty id);
    [destruct (truthy msg); [|done]|]; simpl.
  - apply storeAlternates_insert; [done|].
    destruct (bubbleMessages a !! id) as [b|] eqn:Hb; simpl; eauto.
  - by apply storeAlternates_insert.
Qed.

(** The thread of an idle anchor is empty or ends with an ASSISTANT turn. *)
Lemma idle_last id a :
  awaitingReply id a = false →
  match last (readThread id a) with Some t => role t = ai | None => True end.
Proof.
  unfold awaitingReply, readThread.
  destruct (bubbleMessages a !! id) as [b|]; [|done].
  destruct (last (historyOrEmpty (conversationHistory b))) as [t|]; [|done].
  intros H%bool_decide_eq_false_1. by destruct (role t).
Qed.

Lemma followUpButton_updater_alternates id text a :
  allAlternate a → awaitingReply id a = false →
  storeAlternates (followUpButton_updater id text (bubbleMessages a)).
Proof.
  intros Ha Hidle. apply storeAlternates_insert; [by apply allAlternate_store|].
  simpl. apply alternates_snoc_user.
  - apply (Ha id).
  - apply (idle_last id a Hidle).
Qed.

Lemma commentButton_updater_alternates id text a :
  allAlternate a → awaitingReply id a = false →
  storeAlternates (commentButton_updater id text (bubbleMessages a)).
Proof.
  intros Ha Hidle. apply storeAlternates_insert; [by apply allAlternate_store|].
  simpl. pose proof (Ha id) as Hid. pose proof (idle_last id a Hidle) as Hlast.
  unfold readThread in Hid, Hlast. unfold awaitingReply in Hidle.
  destruct (bubbleMessages a !! id) as [b|] eqn:Hb; [|done].
  destruct (historyOrEmpty (conversationHistory b)) as [|t h] eqn:Hh.
  - simpl in *. destruct (truthy (userComment b)); [|done]. simpl in *.
    destruct (aiReply b) as [r|]; simpl in *; [|done].
    by destruct (truthy r).
  - replace ((length (t :: h) =? 0)%nat) with false by done. simpl andb. cbv iota.
    by apply alternates_snoc_user.
Qed.

Lemma step_alternates dom op a :
  allAlternate a → submitsWhenIdle op a = true → allAlternate (step dom op a).
Proof.
  intros Ha Hidle. destruct op; simpl in *.
  - (* createAnchor *)
    unfold createCommentBubble.
    destruct (_ || _); [done|].
    apply allAlternate_store. simpl.
    apply storeAlternates_insert; [by apply allAlternate_store | done].
  - (* submitInitial *)
    unfold commentForm_onsubmit.
    destruct (negb (commentGuard (trim value) a)); [done|].
    apply allAlternate_store. rewrite (proj1 (flowingDocSend_store _ _)).
    apply allAlternate_store, updateBubbleContent_alternates.
    apply allAlternate_store. simpl.
    apply storeAlternates_insert; [by apply allAlternate_store | done].
  - (* submitCommentButton *)
    unfold commentButton_click.
    destruct (negb (commentGuard (trim value) a)); [done|].
    apply allAlternate_store. simpl. rewrite (proj1 (flowingDocSend_store _ _)).
    apply commentButton_updater_alternates; [done|]. by apply negb_true_iff.
  - (* submitFollowUp *)
    unfold followUpButton_click.
    destruct (negb (commentGuard (trim value) a)); [done|].
    apply allAlternate_store. simpl. rewrite (proj1 (flowingDocSend_store _ _)).
    apply followUpButton_updater_alternates; [done|]. by apply negb_true_iff.
  - (* submitReplyFollowUp *)
    unfold replyFollowUp_click.
    destruct (negb (commentGuard (trim value) a)); [done|].
    apply allAlternate_store. simpl. rewrite (proj1 (flowingDocSend_store _ _)).
    apply (followUpButton_updater_alternates targetId (trim value) a); [done|].
    by apply negb_true_iff.
  - (* applyAssistantReply *)
    apply allAlternate_store. simpl.
    by apply handleReply_updater_alternates, allAlternate_store.
  - (* sessionReset *)
    apply allAlternate_store. simpl. intros id b. by rewrite lookup_empty.
Qed.

Lemma readyApp_alternates : allAlternate readyApp.
Proof. intros id. reflexivity. Qed.

(** ** The user comment of an entry is its latest USER turn *)

Lemma lastUserContent_snoc_user h c : lastUserContent (h ++ [mkTurn user c]) = Some c.
Proof.
  unfold lastUserContent. rewrite filter_app, filter_cons_True by done.
  rewrite filter_nil. by rewrite last_snoc.
Qed.

Lemma lastUserContent_snoc_ai h c :
  lastUserContent (h ++ [mkTurn ai c]) = lastUserContent h.
Proof.
  unfold lastUserContent. rewrite filter_app, filter_cons_False by done.
  rewrite filter_nil. by rewrite app_nil_r.
Qed.

Lemma commentsAreLatest_insert (id : jsstring) (b : Bubble)
    (m : gmap jsstring Bubble) (a : App) :
  bubbleMessages a = <[id := b]> m →
  (∀ id' b', m !! id' = Some b' → commentIsLatest b') →
  commentIsLatest b →
  commentsAreLatest a.
Proof.
  intros Ha Hm Hb id' b'. rewrite Ha, lookup_insert.
  case_decide; [intros [= <-]; done | apply Hm].
Qed.

Lemma commentIsLatest_submitted h c :
  commentIsLatest (mkBubble c None (Some (h ++ [mkTurn user c]))).
Proof. unfold commentIsLatest. simpl. by rewrite lastUserContent_snoc_user. Qed.

Lemma commentIsLatest_replied b text :
  commentIsLatest b →
  commentIsLatest (mkBubble (userComment b) (Some text) (Some (repliedHistory b text))).
Proof.
  unfold commentIsLatest, repliedHistory. simpl. intros Hb.
  destruct (last (historyOrEmpty (conversationHistory b))) as [t|].
  - case_bool_decide; [|done]. by rewrite lastUserContent_snoc_ai.
  - by destruct (truthy (userComment b)).
Qed.

Lemma step_commentsAreLatest dom op a :
  commentsAreLatest a → commentsAreLatest (step dom op a).
Proof.
  intros Ha. destruct op; simpl.
  - unfold createCommentBubble. destruct (_ || _); [done|].
    by eapply commentsAreLatest_insert.
  - unfold commentForm_onsubmit.
    destruct (negb (commentGuard (trim value) a)); [done|].
    intros id b. rewrite (proj1 (flowingDocSend_store _ _)).
    unfold updateBubbleContent.
    destruct (bool_decide (is_Some (snapshot !! targetId)) || inheritedProperty targetId);
      [destruct (truthy (trim value))|];
      simpl; rewrite ?lookup_insert_eq, ?insert_insert_eq; revert id b;
      apply (commentsAreLatest_insert targetId _ (bubbleMessages a)
               (updateBubbleMessages (λ _, <[targetId := _]> (bubbleMessages a)) a)
               eq_refl Ha); try done.
    all: apply (commentIsLatest_submitted []).
  - unfold commentButton_click.
    destruct (negb (commentGuard (trim value) a)); [done|].
    intros id b. simpl. rewrite (proj1 (flowingDocSend_store _ _)). revert id b.
    apply (commentsAreLatest_insert targetId _ (bubbleMessages a)
             (updateBubbleMessages (commentButton_updater targetId (trim value)) a)
             eq_refl Ha).
    apply commentIsLatest_submitted.
  - unfold followUpButton_click.
    destruct (negb (commentGuard (trim value) a)); [done|].
    intros id b. simpl. rewrite (proj1 (flowingDocSend_store _ _)). revert id b.
    apply (commentsAreLatest_insert targetId _ (bubbleMessages a)
             (updateBubbleMessages (followUpButton_updater targetId (trim value)) a)
             eq_refl Ha).
    apply commentIsLatest_submitted.
  - unfold replyFollowUp_click.
    destruct (negb (commentGuard (trim value) a)); [done|].
    intros id b. simpl. rewrite (proj1 (flowingDocSend_store _ _)). revert id b.
    apply (commentsAreLatest_insert targetId _ (bubbleMessages a)
             (updateBubbleMessages (followUpButton_updater targetId (trim value)) a)
             eq_refl Ha).
    apply commentIsLatest_submitted.
  - destruct (bubbleMessages a !! targetId) as [b|] eqn:Hb.
    + eapply commentsAreLatest_insert; [|exact Ha|].
      * simpl. by apply handleReply_updater_some.
      * apply commentIsLatest_replied. eauto.
    + destruct (inheritedProperty targetId) eqn:Hi.
      * eapply commentsAreLatest_insert; [|exact Ha|].
        -- simpl. by apply handleReply_updater_inherited.
        -- done.
      * eapply commentsAreLatest_insert; [|exact Ha|].
        -- simpl. by apply handleReply_updater_none.
        -- done.
  - intros id b. simpl. by rewrite lookup_empty.
Qed.

(** In every state of a run that starts from the mounted application, each
    entry's user comment is the content of its latest USER turn. *)
Lemma run_commentsAreLatest trace a0 :
  commentsAreLatest a0 → Forall commentsAreLatest (run trace a0).
Proof.
  revert a0. induction trace as [|[dom op] rest IH]; intros a0 H0; simpl.
  - constructor.
  - pose proof (step_commentsAreLatest dom op a0 H0). constructor; auto.
Qed.

Lemma readyApp_commentsAreLatest : commentsAreLatest readyApp.
Proof. intros id b H. vm_compute in H. discriminate. Qed.

(** ** The claims on the conversation store *)

(** Along every run of store operations (anchor creation, the four submit
    handlers whether or not the page shows their form, replies including
    duplicated and orphan ones, session resets) in which a user turn is
    submitted only to an anchor that is not waiting for a reply, the turn
    roles of every thread alternate strictly, starting with USER, after
    each operation. *)
Lemma alternation_kept_when_submits_wait (trace : list (Dom * Op)) (a0 : App) :
  allAlternate a0 →
  disciplined trace a0 = true →
  Forall allAlternate (run trace a0).
Proof.
  revert a0. induction trace as [|[dom op] rest IH]; intros a0 H0 Hd; simpl.
  - constructor.
  - simpl in Hd. apply andb_prop in Hd as [Hop Hrest].
    pose proof (step_alternates dom op a0 H0 Hop) as H1.
    constructor; [exact H1|]. by apply IH.
Qed.

Lemma alternation_kept_when_submits_wait_witness :
  disciplined exampleTrace readyApp = true
  ∧ Forall allAlternate (run exampleTrace readyApp).
Proof.
  split; [vm_compute; reflexivity|].
  apply (alternation_kept_when_submits_wait exampleTrace readyApp).
  - exact readyApp_alternates.
  - vm_compute. reflexivity.
Defined.

(** C2 as stated fails on the store: a reply to a settled thread is neither
    preceded by a corrective USER turn nor appended. *)
Lemma settled_reply_not_repaired_in_store :
  readThread (lit "sel-1") settledApp
    = [mkTurn user (lit "x"); mkTurn ai (lit "y")]
  ∧ readThread (lit "sel-1")
      (after (handleReply exampleDom (lit "sel-1") (lit "z") settledApp))
    = [mkTurn user (lit "x"); mkTurn ai (lit "y")]
  ∧ readThread (lit "sel-1")
      (after (handleReply exampleDom (lit "sel-1") (lit "z") settledApp))
    ≠ [mkTurn user (lit "x"); mkTurn ai (lit "y");
       mkTurn user (lit "x"); mkTurn ai (lit "z")].
Proof. vm_compute. repeat split; discriminate. Qed.

(** C2 (amended). When a reply arrives for an anchor whose thread ends with
    an ASSISTANT turn, [handleReply] does not throw; what it renders in the
    anchor's bubble is the stored turns, then a corrective USER turn with
    the entry's current user comment, then the ASSISTANT reply, and this
    rendered list alternates if the stored one does. Where the user
    comment is the latest USER turn (as in every state of a run, by
    [run_commentsAreLatest]), the corrective turn duplicates that turn.
    The stored thread receives neither the corrective turn nor the reply:
    the entry keeps its turn list and its user comment and takes the reply
    text in [aiReply] only, and every thread of the store reads as
    before. *)
Theorem reply_to_settled_thread_rendered_repaired
    (dom : Dom) (id text : jsstring) (a : App) (b : Bubble) (t : Turn) :
  bubbleMessages a !! id = Some b →
  last (historyOrEmpty (conversationHistory b)) = Some t →
  role t = ai →
  id ∈ bubbleContent dom →
  let rendered :=
    historyOrEmpty (conversationHistory b)
      ++ [mkTurn user (userComment b); mkTurn ai text] in
  thrown (handleReply dom id text a) = None
  ∧ handleReply_display dom id text a = Some rendered
  ∧ (alternates (historyOrEmpty (conversationHistory b)) = true →
     alternates rendered = true)
  ∧ (∃ b', bubbleMessages (after (handleReply dom id text a)) !! id = Some b'
           ∧ aiReply b' = Some text ∧ userComment b' = userComment b)
  ∧ (commentIsLatest b →
     ∀ c, lastUserContent (historyOrEmpty (conversationHistory b)) = Some c →
          rendered = historyOrEmpty (conversationHistory b)
                       ++ [mkTurn user c; mkTurn ai text])
  ∧ bubbleMessages (after (handleReply dom id text a))
    = <[id := mkBubble (userComment b) (Some text)
                       (Some (historyOrEmpty (conversationHistory b)))]>
        (bubbleMessages a)
  ∧ (∀ id', readThread id' (after (handleReply dom id text a)) = readThread id' a)
  ∧ readThread id (after (handleReply dom id text a)) ≠ rendered.
Proof.
  intros Hb Hl Hr Hdom rendered.
  assert (Hst : bubbleMessages (after (handleReply dom id text a))
                = <[id := mkBubble (userComment b) (Some text)
                       (Some (historyOrEmpty (conversationHistory b)))]>
                    (bubbleMessages a)).
  { rewrite handleReply_store, (handleReply_updater_some _ _ _ _ b Hb).
    unfold repliedHistory. rewrite Hl, Hr. by rewrite bool_decide_eq_false_2. }
  assert (Hthreads : ∀ id', readThread id' (after (handleReply dom id text a))
                            = readThread id' a).
  { intros id'. unfold readThread. rewrite Hst, lookup_insert.
    case_decide as Hid; [subst id'|done]. by rewrite Hb. }
  split; [done|]. split; [|split; [|split; [|split; [|split; [done|split; [done|]]]]]].
  - unfold handleReply_display, handleReply_rendered.
    rewrite bool_decide_eq_true_2 by done. rewrite Hb.
    unfold lastIsUser. rewrite Hl, Hr. simpl.
    destruct (historyOrEmpty (conversationHistory b)) as [|x h]; [done|].
    reflexivity.
  - intros Halt. subst rendered.
    replace [mkTurn user (userComment b); mkTurn ai text]
      with ([mkTurn user (userComment b)] ++ [mkTurn ai text]) by done.
    rewrite app_assoc. eapply alternates_snoc_ai; [|apply last_snoc|done].
    apply alternates_snoc_user; [done|]. by rewrite Hl.
  - rewrite handleReply_store, (handleReply_updater_some _ _ _ _ b Hb).
    eexists. rewrite lookup_insert_eq. done.
  - unfold commentIsLatest. intros Hlatest c Hc. rewrite Hc in Hlatest.
    subst rendered. by rewrite Hlatest.
  - rewrite Hthreads. unfold readThread. rewrite Hb. subst rendered.
    intros Heq. apply (f_equal length) in Heq. rewrite length_app in Heq.
    simpl in Heq. lia.
Qed.

Lemma reply_to_settled_thread_rendered_repaired_witness :
  handleReply_display exampleDom (lit "sel-1") (lit "z") settledApp
  = Some [mkTurn user (lit "x"); mkTurn ai (lit "y");
          mkTurn user (lit "x"); mkTurn ai (lit "z")].
Proof.
  refine (proj1 (proj2 (reply_to_settled_thread_rendered_repaired
    exampleDom (lit "sel-1") (lit "z") settledApp
    (mkBubble (lit "x") (Some (lit "y")) (Some [mkTurn user (lit "x"); mkTurn ai (lit "y")]))
    (mkTurn ai (lit "y")) _ _ _ _))).
  - vm_compute. reflexivity.
  - reflexivity.
  - reflexivity.
  - vm_compute. set_solver.
Defined.

(** C3. A reply for an anchor whose thread is SETTLED (its last turn is an
    ASSISTANT turn) is discarded: [handleReply] does not throw, every
    thread, the status, the transcript and the frames sent are as before;
    and when the state is itself the result of a first call with the same
    reply, the second call changes nothing at all. *)
Theorem duplicate_reply_discarded (dom : Dom) (id text : jsstring) (a : App) :
  statusOf (readThread id a) = SETTLED →
  let a' := after (handleReply dom id text a) in
  thrown (handleReply dom id text a) = None
  ∧ (∀ id', readThread id' a' = readThread id' a)
  ∧ statusOf (readThread id a') = SETTLED
  ∧ paras a' = paras a
  ∧ allSent a' = allSent a
  ∧ (∀ a0, a = after (handleReply dom id text a0) →
           after (handleReply dom id text a) = a).
Proof.
  intros Hs a'.
  assert (Hthreads : ∀ id', readThread id' a' = readThread id' a).
  { intros id'. unfold readThread in Hs |- *. subst a'.
    rewrite handleReply_store.
    destruct (bubbleMessages a !! id) as [b|] eqn:Hb; [|done].
    rewrite (handleReply_updater_some _ _ _ _ b Hb), lookup_insert.
    case_decide as Hid; [subst id'|done]. rewrite Hb. simpl.
    unfold repliedHistory. unfold statusOf in Hs.
    destruct (last (historyOrEmpty (conversationHistory b))) as [t|]; [|done].
    destruct (role t); [done|]. by rewrite bool_decide_eq_false_2. }
  split; [done|]. split; [done|]. split; [by rewrite Hthreads|].
  split; [done|]. split; [done|].
  intros a0 ->. apply handleReply_idempotent.
Qed.

Lemma duplicate_reply_discarded_witness :
  statusOf (readThread (lit "sel-1") settledApp) = SETTLED
  ∧ readThread (lit "sel-1")
      (after (handleReply exampleDom (lit "sel-1") (lit "z") settledApp))
    = readThread (lit "sel-1") settledApp.
Proof.
  split; [vm_compute; reflexivity|].
  refine (proj1 (proj2 (duplicate_reply_discarded
    exampleDom (lit "sel-1") (lit "z") settledApp _)) (lit "sel-1")).
  vm_compute. reflexivity.
Defined.



(** What the code does with a reply for an id that names an inherited
    property and has no entry: the lookup finds the inherited value, the
    branch for an existing entry is taken, and the entry it stores has the
    reply text over an empty thread. A second reply finds that entry. *)
Lemma reply_for_inherited_name (dom : Dom) (id text : jsstring) (a : App) :
  bubbleMessages a !! id = None →
  inheritedProperty id = true →
  bubbleMessages (after (handleReply dom id text a))
  = <[id := mkBubble [] (Some text) (Some [])]> (bubbleMessages a)
  ∧ readThread id (after (handleReply dom id text a)) = []
  ∧ statusOf (readThread id (after (handleReply dom id text a))) = DRAFT.
Proof.
  intros Hb Hi.
  assert (Hst : bubbleMessages (after (handleReply dom id text a))
                = <[id := mkBubble [] (Some text) (Some [])]> (bubbleMessages a)).
  { by rewrite handleReply_store, handleReply_updater_inherited. }
  split; [done|]. unfold readThread. by rewrite Hst, lookup_insert_eq.
Qed.

Lemma reply_for_constructor :
  inheritedProperty (lit "constructor") = true
  ∧ readThread (lit "constructor")
      (after (handleReply exampleDom (lit "constructor") (lit "reply text") readyApp))
    = [].
Proof. split; vm_compute; reflexivity. Qed.

(** ** Session reset *)

(** The narrative event leaves the transcript with the new line alone and
    the store empty. *)
Lemma narrativeHandler_resets detail a :
  paras (narrativeHandler detail a) = [detail]
  ∧ bubbleMessages (narrativeHandler detail a) = ∅
  ∧ ∀ id, readThread id (narrativeHandler detail a) = [].
Proof.
  split; [done|]. split; [done|]. intros id. unfold readThread. simpl.
  by rewrite lookup_empty.
Qed.

(** C5 (the code at the failing input). After the chat line "hi" has been
    appended to the transcript, the narrative event with the line
    "Matrix is now singular" leaves that line alone in the transcript: the
    chat line is gone. *)
Theorem narrative_reset_drops_chat_lines :
  paras chattedApp = [userPrefix ++ lit "hi"]
  ∧ paras (narrativeHandler (lit "Matrix is now singular") chattedApp)
    = [lit "Matrix is now singular"]
  ∧ userPrefix ++ lit "hi"
    ∉ paras (narrativeHandler (lit "Matrix is now singular") chattedApp).
Proof.
  split; [vm_compute; reflexivity|]. split; [reflexivity|].
  simpl. intros H%list_elem_of_singleton. vm_compute in H. discriminate.
Qed.

(** ** The shared socket *)

Lemma getWebSocket_existing a i s :
  ws a = Some i → sockets a !! i = Some s → isLive s = true →
  getWebSocket a = (i, a).
Proof.
  intros Hws Hs Hlive. unfold getWebSocket. rewrite Hws, Hs. simpl.
  unfold isLive in Hlive. by destruct (readyState s).
Qed.

Lemma getWebSocket_absent a :
  ws a = None →
  getWebSocket a
  = (length (sockets a),
     set_ws (Some (length (sockets a))) (set_sockets (λ ss, ss ++ [newSocket]) a)).
Proof. intros Hws. unfold getWebSocket. by rewrite Hws. Qed.

Lemma getWebSocket_closed a i s :
  ws a = Some i → sockets a !! i = Some s → isLive s = false →
  getWebSocket a
  = (length (sockets a),
     set_ws (Some (length (sockets a))) (set_sockets (λ ss, ss ++ [newSocket]) a)).
Proof.
  intros Hws Hs Hlive. unfold getWebSocket. rewrite Hws, Hs. simpl.
  unfold isLive in Hlive. by destruct (readyState s).
Qed.

Lemma newSocket_onlySharedLive a :
  (∀ j s, sockets a !! j = Some s → isLive s = false) →
  onlySharedLive
    (set_ws (Some (length (sockets a))) (set_sockets (λ ss, ss ++ [newSocket]) a)).
Proof.
  intros Hno j s. simpl. intros Hj Hlive.
  apply lookup_app_Some in Hj as [Hj|[Hlen Hj]].
  - rewrite (Hno j s Hj) in Hlive. discriminate.
  - f_equal. apply list_lookup_singleton_Some in Hj as [Hj _]. lia.
Qed.

(** As long as sockets are made by [getWebSocket] alone, the live socket is
    unique: it is the one in [ws]. *)
Lemma getWebSocket_onlySharedLive a :
  onlySharedLive a → onlySharedLive (getWebSocket a).2.
Proof.
  intros Hinv. destruct (ws a) as [i|] eqn:Hws.
  - destruct (sockets a !! i) as [s|] eqn:Hs.
    + destruct (isLive s) eqn:Hlive.
      * by rewrite (getWebSocket_existing a i s).
      * rewrite (getWebSocket_closed a i s) by done. simpl.
        apply newSocket_onlySharedLive. intros j s' Hj.
        destruct (isLive s') eqn:Hl; [|done].
        pose proof (Hinv j s' Hj Hl) as Heq. rewrite Hws in Heq.
        injection Heq as ->. congruence.
    + unfold getWebSocket. rewrite Hws, Hs. done.
  - rewrite getWebSocket_absent by done. simpl.
    apply newSocket_onlySharedLive. intros j s' Hj.
    destruct (isLive s') eqn:Hl; [|done].
    pose proof (Hinv j s' Hj Hl) as Heq. congruence.
Qed.

(** Once the shared socket has closed, the next [getWebSocket] makes a new
    one; while it is open, the same one is handed out. *)
Lemma getWebSocket_reopens_after_close :
  (getWebSocket readyApp).1 = 0%nat
  ∧ (getWebSocket (socketSetState 0 CLOSED readyApp)).1 = 2%nat.
Proof. split; reflexivity. Qed.

(** C6 (the code at the failing input). Mounting the application leaves two
    physical connections outstanding: the shared one made by
    [getWebSocket] and a second one that FlowingDoc constructs itself. *)
Theorem App_mount_opens_two_connections :
  liveSockets (App_mount initialApp) = 2%nat
  ∧ ws (App_mount initialApp) = Some 0%nat
  ∧ chatBarWs (App_mount initialApp) = Some 0%nat
  ∧ flowingDocWs (App_mount initialApp) = Some 1%nat
  ∧ ¬ onlySharedLive (App_mount initialApp).
Proof.
  split; [reflexivity|]. split; [reflexivity|]. split; [reflexivity|].
  split; [reflexivity|].
  intros H. by specialize (H 1%nat newSocket eq_refl eq_refl).
Qed.

(** ** Inbound frames *)

Lemma strictEqualsString_true v s :
  strictEqualsString v s = true ↔ v = JStr s.
Proof.
  destruct v; simpl; try (split; [discriminate|congruence]).
  rewrite bool_decide_eq_true. split; congruence.
Qed.

Lemma onKind_wanted msg wanted k :
  getProp msg (lit "kind") = Normal (JStr wanted) →
  onKind msg wanted k = k msg.
Proof.
  intros H. unfold onKind. rewrite H. simpl. by rewrite bool_decide_eq_true_2.
Qed.

Lemma onKind_other msg wanted k v :
  getProp msg (lit "kind") = Normal v → v ≠ JStr wanted →
  onKind msg wanted k = Normal [].
Proof.
  intros H Hne. unfold onKind. rewrite H.
  destruct (strictEqualsString v wanted) eqn:E; [|done].
  by apply strictEqualsString_true in E.
Qed.

(** C7 as stated fails: a frame of kind "narration" dispatches nothing, and
    it is the kind "matrix" that triggers the narrative event. *)
Lemma narration_kind_not_dispatched :
  handleMsg (textFrame "narration" "Matrix is now singular") = Normal []
  ∧ handleMsg (textFrame "matrix" "Matrix is now singular")
    = Normal [Narrative (JStr (lit "Matrix is now singular"))].
Proof. split; vm_compute; reflexivity. Qed.

(** C7 (amended). The narrative event is dispatched for an inbound frame
    exactly when the frame parses and its kind is "matrix"; the event
    carries the frame's text, nothing else is ever dispatched by this
    listener, and the event replaces the transcript by that text. *)
Theorem narrative_dispatched_iff_kind_matrix (data : Parsed) (detail : JsValue) :
  (handleMsg data = Normal [Narrative detail]
   ↔ ∃ msg, data = ParsedValue msg
            ∧ getProp msg (lit "kind") = Normal (JStr (lit "matrix"))
            ∧ getProp msg (lit "text") = Normal detail)
  ∧ (∀ d, d ∈ dispatched (handleMsg data) → handleMsg data = Normal [d]
          ∧ ∃ detail', d = Narrative detail')
  ∧ (∀ dom text a, paras <$> perform dom (Narrative (JStr text)) a = Some [text]).
Proof.
  split; [|split].
  - split.
    + destruct data as [|msg]; [discriminate|]. simpl. unfold onKind.
      destruct (getProp msg (lit "kind")) as [kind|] eqn:Hk; [|discriminate].
      destruct (strictEqualsString kind (lit "matrix")) eqn:E; [|discriminate].
      apply strictEqualsString_true in E as ->. unfold readProp.
      destruct (getProp msg (lit "text")) as [text|] eqn:Ht; [|discriminate].
      intros [= <-]. eauto.
    + intros (msg & -> & Hk & Ht). simpl.
      rewrite (onKind_wanted _ _ _ Hk). unfold readProp. by rewrite Ht.
  - intros d. destruct data as [|msg]; simpl; [by intros ?%elem_of_nil|].
    unfold onKind.
    destruct (getProp msg (lit "kind")) as [kind|]; simpl; [|by intros ?%elem_of_nil].
    destruct (strictEqualsString kind (lit "matrix")); simpl;
      [|by intros ?%elem_of_nil].
    unfold readProp.
    destruct (getProp msg (lit "text")) as [text|]; simpl; [|by intros ?%elem_of_nil].
    intros ->%list_elem_of_singleton. eauto.
  - done.
Qed.

(** FlowingDoc's listener never throws. *)
Lemma FlowingDoc_onmessage_completes data :
  ∃ ds, FlowingDoc_onmessage data = Normal ds.
Proof.
  unfold FlowingDoc_onmessage.
  destruct (FlowingDoc_onmessage_body data); eauto.
Qed.

(** A frame that parses to something other than [null], with no kind or a
    kind that no listener consumes, is ignored by the three listeners. *)
Lemma unknown_kind_ignored msg kind :
  getProp msg (lit "kind") = Normal kind →
  kind ≠ JStr (lit "matrix") → kind ≠ JStr (lit "chat-reply") →
  kind ≠ JStr (lit "reply") →
  handleMsg (ParsedValue msg) = Normal []
  ∧ ChatBar_handler (ParsedValue msg) = Normal []
  ∧ FlowingDoc_onmessage (ParsedValue msg) = Normal [].
Proof.
  intros Hk H1 H2 H3. unfold FlowingDoc_onmessage. simpl.
  by rewrite !(onKind_other _ _ _ _ Hk).
Qed.

(** C8 (the code at the failing input). On a frame that is not JSON the
    listeners of MatrixPlayground and ChatBar raise the SyntaxError of
    [JSON.parse], and on the frame [null] a TypeError; FlowingDoc's
    listener, which wraps its body in try/catch, completes on both. *)
Theorem unparsable_frame_throws_in_shared_listeners :
  handleMsg ParseError = Throw SyntaxError
  ∧ ChatBar_handler ParseError = Throw SyntaxError
  ∧ handleMsg (ParsedValue JNull) = Throw TypeError
  ∧ ChatBar_handler (ParsedValue JNull) = Throw TypeError
  ∧ FlowingDoc_onmessage ParseError = Normal []
  ∧ FlowingDoc_onmessage (ParsedValue JNull) = Normal [].
Proof. repeat split. Qed.

(** ** Anchor ids *)

(** C9 as stated fails: two selections handled within the same millisecond
    get the same id. *)
Lemma same_millisecond_same_id :
  (createCommentOnSelection 1700000000000 (lit "eigen") exampleDom readyApp).1
  = (createCommentOnSelection 1700000000000 (lit "vector") exampleDom
       (createCommentOnSelection 1700000000000 (lit "eigen") exampleDom readyApp).2).1.
Proof. reflexivity. Qed.

(** C9 (amended). The ids bound by two [createCommentOnSelection] calls are
    equal exactly when the two calls read the same value from the clock;
    calls at different milliseconds get different ids. *)
Theorem anchor_ids_equal_iff_same_clock
    (now1 now2 : Z) (h1 h2 : jsstring) (dom1 dom2 : Dom) (a1 a2 : App) :
  (createCommentOnSelection now1 h1 dom1 a1).1
  = (createCommentOnSelection now2 h2 dom2 a2).1
  ↔ now1 = now2.
Proof.
  simpl. split; [apply anchorId_inj | by intros ->].
Qed.

(** ** Blank submissions *)

(** C10. When the submitted text is empty or only whitespace, each of the
    four comment handlers and ChatBar's [send] returns at its guard: no
    exception, and the state (threads, transcript, sockets with the frames
    sent on them, input box) is the one before. *)
Theorem blank_submit_is_noop
    (dom : Dom) (snapshot : gmap jsstring Bubble)
    (targetId highlightedText value : jsstring) (a : App) :
  forallb isWhiteSpace value = true →
  commentForm_onsubmit dom snapshot targetId highlightedText value a = completes a
  ∧ commentButton_click dom targetId highlightedText value a = completes a
  ∧ followUpButton_click dom targetId highlightedText value a = completes a
  ∧ replyFollowUp_click dom targetId highlightedText value a = completes a
  ∧ send (setInput value a) = completes (setInput value a).
Proof.
  intros Hblank.
  unfold commentForm_onsubmit, commentButton_click, followUpButton_click,
    replyFollowUp_click, send, commentGuard. simpl.
  rewrite (trim_whitespace value Hblank). done.
Qed.

Lemma blank_submit_is_noop_witness :
  forallb isWhiteSpace [0x20; 0x09; 0xA0; 0x0A] = true
  ∧ allSent (after (followUpButton_click exampleDom (lit "sel-1") (lit "orig snippet")
                      [0x20; 0x09; 0xA0; 0x0A] settledApp))
    = allSent settledApp.
Proof.
  split; [reflexivity|].
  rewrite (proj1 (proj2 (proj2 (blank_submit_is_noop exampleDom ∅ (lit "sel-1")
    (lit "orig snippet") [0x20; 0x09; 0xA0; 0x0A] settledApp eq_refl)))).
  reflexivity.
Defined.

(** ** The unmounted NarrativePane *)

(** Its ids come from the same clock-based scheme. *)
Lemma NarrativePane_comment_id now answer hasSelection hasSocket surroundThrows id f :
  NarrativePane_comment now answer hasSelection hasSocket surroundThrows
  = Normal (Some (id, f)) →
  id = anchorId now.
Proof.
  unfold NarrativePane_comment. destruct answer as [text|]; [|discriminate].
  destruct (_ || _); [discriminate|].
  destruct surroundThrows; [discriminate|]. by intros [= <- _].
Qed.

(** Its comment handler rejects an empty answer but sends one that is only
    whitespace: the guard is on the untrimmed text. *)
Lemma NarrativePane_comment_blank :
  NarrativePane_comment 1 (Some []) true true false = Normal None
  ∧ NarrativePane_comment 1 (Some [0x20]) true true false
    = Normal (Some (lit "sel-1", BareCommentFrame (lit "sel-1") [0x20])).
Proof. split; reflexivity. Qed.

(** When [surroundContents] raises, the handler ends with that exception:
    no id is bound and no frame is sent, whatever the answer was. *)
Lemma NarrativePane_comment_surround_throws now answer hasSelection hasSocket :
  NarrativePane_comment now answer hasSelection hasSocket true
  = (if truthy_opt answer && hasSelection && hasSocket
     then Throw InvalidStateError else Normal None).
Proof.
  unfold NarrativePane_comment. destruct answer as [[|c text]|]; [done| |done].
  simpl. by destruct hasSelection, hasSocket.
Qed.

(** * Further properties of the code *)

(** ** Replies *)

(** The store after each submit handler, once its guard has passed. *)
Lemma commentButton_click_store dom id h value a :
  commentGuard (trim value) a = true →
  bubbleMessages (after (commentButton_click dom id h value a))
  = commentButton_updater id (trim value) (bubbleMessages a).
Proof.
  intros Hg. unfold commentButton_click. rewrite Hg. simpl.
  by rewrite (proj1 (flowingDocSend_store _ _)).
Qed.

Lemma followUpButton_click_store dom id h value a :
  commentGuard (trim value) a = true →
  bubbleMessages (after (followUpButton_click dom id h value a))
  = followUpButton_updater id (trim value) (bubbleMessages a).
Proof.
  intros Hg. unfold followUpButton_click. rewrite Hg. simpl.
  by rewrite (proj1 (flowingDocSend_store _ _)).
Qed.

Lemma replyFollowUp_click_store dom id h value a :
  commentGuard (trim value) a = true →
  bubbleMessages (after (replyFollowUp_click dom id h value a))
  = followUpButton_updater id (trim value) (bubbleMessages a).
Proof.
  intros Hg. unfold replyFollowUp_click. rewrite Hg. simpl.
  by rewrite (proj1 (flowingDocSend_store _ _)).
Qed.

Lemma commentForm_onsubmit_store dom snapshot id h value a :
  commentGuard (trim value) a = true →
  bubbleMessages (after (commentForm_onsubmit dom snapshot id h value a))
  = <[id := mkBubble (trim value) None
              (if bool_decide (is_Some (snapshot !! id)) || inheritedProperty id
               then Some [mkTurn user (trim value)]
               else None)]> (bubbleMessages a).
Proof.
  intros Hg. unfold commentForm_onsubmit. rewrite Hg. simpl.
  rewrite (proj1 (flowingDocSend_store _ _)).
  apply andb_prop in Hg as [Ht _].
  unfold updateBubbleContent.
  destruct (bool_decide (is_Some (snapshot !! id)) || inheritedProperty id); simpl.
  - rewrite Ht. simpl. by rewrite lookup_insert_eq, insert_insert_eq.
  - by rewrite insert_insert_eq.
Qed.

Lemma awaitingReply_entry id a :
  awaitingReply id a = true → ∃ b, bubbleMessages a !! id = Some b.
Proof.
  unfold awaitingReply. destruct (bubbleMessages a !! id) as [b|]; [eauto|done].
Qed.

(** The turns a waiting entry stands for: its thread, or the single USER
    turn of its comment when no thread has been stored yet. *)
Lemma repliedHistory_awaiting b text :
  match last (historyOrEmpty (conversationHistory b)) with
  | Some t => bool_decide (role t = user)
  | None => truthy (userComment b) && negb (truthy_opt (aiReply b))
  end = true →
  repliedHistory b text
  = match historyOrEmpty (conversationHistory b) with
    | [] => [mkTurn user (userComment b)]
    | h => h
    end ++ [mkTurn ai text].
Proof.
  unfold repliedHistory.
  destruct (historyOrEmpty (conversationHistory b)) as [|t h] eqn:Hh.
  - simpl. intros [Hu _]%andb_prop. by rewrite Hu.
  - destruct (last (t :: h)) as [t'|] eqn:Hl; [|by apply last_None in Hl].
    by intros ->.
Qed.

(** X1. A reply for an anchor that is waiting for one completes the
    exchange: the thread becomes the turns so far (the single USER turn of
    the comment when none were stored yet) followed by the ASSISTANT turn,
    it is SETTLED and no longer waiting, and the entry keeps its user
    comment and records the reply. *)
Theorem reply_settles_waiting_anchor
    (dom : Dom) (id text : jsstring) (a : App) (b : Bubble) :
  bubbleMessages a !! id = Some b →
  awaitingReply id a = true →
  let a' := after (handleReply dom id text a) in
  readThread id a'
  = match readThread id a with
    | [] => [mkTurn user (userComment b)]
    | h => h
    end ++ [mkTurn ai text]
  ∧ statusOf (readThread id a') = SETTLED
  ∧ awaitingReply id a' = false
  ∧ (userComment <$> bubbleMessages a' !! id) = Some (userComment b)
  ∧ (aiReply <$> bubbleMessages a' !! id) = Some (Some text).
Proof.
  intros Hb Hw a'. unfold awaitingReply in Hw. rewrite Hb in Hw.
  assert (Hst : bubbleMessages a' !! id
    = Some (mkBubble (userComment b) (Some text) (Some (repliedHistory b text)))).
  { subst a'. rewrite handleReply_store, (handleReply_updater_some _ _ _ _ b Hb).
    apply lookup_insert_eq. }
  assert (Hth : readThread id a'
    = match readThread id a with
      | [] => [mkTurn user (userComment b)]
      | h => h
      end ++ [mkTurn ai text]).
  { unfold readThread. rewrite Hst, Hb. simpl. by apply repliedHistory_awaiting. }
  split; [done|]. split; [|split; [|split]].
  - rewrite Hth. unfold statusOf. by rewrite last_snoc.
  - unfold awaitingReply. rewrite Hst. simpl.
    fold (readThread id a') in *.
    assert (Hr : historyOrEmpty (Some (repliedHistory b text)) = readThread id a').
    { unfold readThread. by rewrite Hst. }
    simpl in Hr. rewrite Hr, Hth, last_snoc. done.
  - by rewrite Hst.
  - by rewrite Hst.
Qed.

Lemma reply_settles_waiting_anchor_witness :
  awaitingReply (lit "sel-1")
    (step exampleDom (submitFollowUp (lit "sel-1") (lit "orig snippet") (lit "more?"))
       settledApp) = true
  ∧ readThread (lit "sel-1")
      (after (handleReply exampleDom (lit "sel-1") (lit "sure")
         (step exampleDom
            (submitFollowUp (lit "sel-1") (lit "orig snippet") (lit "more?"))
            settledApp)))
    = [mkTurn user (lit "x"); mkTurn ai (lit "y");
       mkTurn user (lit "more?"); mkTurn ai (lit "sure")].
Proof.
  split; [vm_compute; reflexivity|].
  refine (proj1 (reply_settles_waiting_anchor exampleDom (lit "sel-1") (lit "sure")
    (step exampleDom (submitFollowUp (lit "sel-1") (lit "orig snippet") (lit "more?"))
       settledApp)
    (mkBubble (lit "more?") None
       (Some [mkTurn user (lit "x"); mkTurn ai (lit "y"); mkTurn user (lit "more?")]))
    _ _)).
  - vm_compute. reflexivity.
  - vm_compute. reflexivity.
Defined.

(** X2. A reply for an anchor whose bubble is still a draft (no comment, no
    turns) never enters the thread: the thread stays empty, only [aiReply]
    is set, and the comment submitted afterwards through the comment
    button starts the thread on its own. *)
Theorem reply_to_draft_leaves_thread_empty
    (dom : Dom) (id text highlightedText value : jsstring) (a : App) (b : Bubble) :
  bubbleMessages a !! id = Some b →
  historyOrEmpty (conversationHistory b) = [] →
  userComment b = [] →
  let a' := after (handleReply dom id text a) in
  bubbleMessages a' !! id = Some (mkBubble [] (Some text) (Some []))
  ∧ readThread id a' = []
  ∧ awaitingReply id a' = false
  ∧ (commentGuard (trim value) a' = true →
     readThread id (after (commentButton_click dom id highlightedText value a'))
     = [mkTurn user (trim value)]).
Proof.
  intros Hb Hh Hu a'.
  assert (Hst : bubbleMessages a' !! id = Some (mkBubble [] (Some text) (Some []))).
  { subst a'. rewrite handleReply_store, (handleReply_updater_some _ _ _ _ b Hb).
    rewrite lookup_insert_eq. unfold repliedHistory. by rewrite Hh, Hu. }
  split; [done|]. split; [|split].
  - unfold readThread. by rewrite Hst.
  - unfold awaitingReply. by rewrite Hst.
  - intros Hg. unfold readThread. rewrite (commentButton_click_store _ _ _ _ _ Hg).
    unfold commentButton_updater. rewrite Hst. simpl. by rewrite lookup_insert_eq.
Qed.

Lemma reply_to_draft_leaves_thread_empty_witness :
  readThread (lit "sel-1")
    (after (handleReply exampleDom (lit "sel-1") (lit "early")
       (step exampleDom (createAnchor 1 (lit "orig snippet")) readyApp))) = [].
Proof.
  refine (proj1 (proj2 (reply_to_draft_leaves_thread_empty exampleDom
    (lit "sel-1") (lit "early") [] []
    (step exampleDom (createAnchor 1 (lit "orig snippet")) readyApp)
    (mkBubble [] None (Some [])) _ _ _))); reflexivity.
Defined.

(** X3. For an anchor that is waiting for a reply and whose bubble is on the
    page, the turn list [handleReply] renders is the thread it stores. *)
Theorem rendered_reply_is_stored_thread
    (dom : Dom) (id text : jsstring) (a : App) :
  awaitingReply id a = true →
  id ∈ bubbleContent dom →
  handleReply_display dom id text a
  = Some (readThread id (after (handleReply dom id text a))).
Proof.
  intros Hw Hdom. destruct (awaitingReply_entry id a Hw) as [b Hb].
  unfold handleReply_display. rewrite bool_decide_eq_true_2 by done. f_equal.
  unfold readThread. rewrite handleReply_store, (handleReply_updater_some _ _ _ _ b Hb).
  rewrite lookup_insert_eq, Hb. simpl.
  unfold awaitingReply in Hw. rewrite Hb in Hw.
  rewrite (repliedHistory_awaiting b text Hw).
  unfold handleReply_rendered, lastIsUser.
  destruct (historyOrEmpty (conversationHistory b)) as [|t h] eqn:Hh; [done|].
  destruct (last (t :: h)) as [t'|] eqn:Hl; [|by apply last_None in Hl].
  simpl in Hw |- *. by rewrite Hw.
Qed.

Lemma rendered_reply_is_stored_thread_witness :
  handleReply_display exampleDom (lit "sel-1") (lit "sure")
    (step exampleDom (submitFollowUp (lit "sel-1") (lit "orig snippet") (lit "more?"))
       settledApp)
  = Some [mkTurn user (lit "x"); mkTurn ai (lit "y");
          mkTurn user (lit "more?"); mkTurn ai (lit "sure")].
Proof.
  rewrite (rendered_reply_is_stored_thread exampleDom (lit "sel-1") (lit "sure")
    (step exampleDom (submitFollowUp (lit "sel-1") (lit "orig snippet") (lit "more?"))
       settledApp)).
  - vm_compute. reflexivity.
  - vm_compute. reflexivity.
  - vm_compute. set_solver.
Defined.

(** ** One anchor at a time *)

Lemma handleReply_updater_elsewhere (dom : Dom) (id text : jsstring)
    (m : gmap jsstring Bubble) (id' : jsstring) :
  id ≠ id' → handleReply_updater dom id text m !! id' = m !! id'.
Proof.
  intros Hne. unfold handleReply_updater.
  destruct (m !! id); [|destruct (inheritedProperty id)];
    by rewrite lookup_insert_ne.
Qed.

Lemma createCommentBubble_store dom id a :
  bubbleMessages (createCommentBubble dom id a)
  = if negb (bool_decide (is_Some (textContent dom !! id))) || negb (docRef dom)
    then bubbleMessages a
    else <[id := mkBubble [] None (Some [])]> (bubbleMessages a).
Proof. unfold createCommentBubble. by destruct (_ || _). Qed.

(** An operation on one anchor leaves the entry of every other anchor as
    it was. *)
Lemma step_entry_elsewhere dom op a id id' :
  opAnchor op = Some id → id ≠ id' →
  bubbleMessages (step dom op a) !! id' = bubbleMessages a !! id'.
Proof.
  intros Hop Hne. destruct op; simpl in Hop; try discriminate;
    injection Hop as Hop; subst id; simpl step.
  - rewrite createCommentBubble_store. destruct (_ || _); [done|].
    by rewrite lookup_insert_ne.
  - destruct (commentGuard (trim value) a) eqn:Hg.
    + rewrite (commentForm_onsubmit_store _ _ _ _ _ _ Hg). by rewrite lookup_insert_ne.
    + unfold commentForm_onsubmit. by rewrite Hg.
  - destruct (commentGuard (trim value) a) eqn:Hg.
    + rewrite (commentButton_click_store _ _ _ _ _ Hg). unfold commentButton_updater.
      by rewrite lookup_insert_ne.
    + unfold commentButton_click. by rewrite Hg.
  - destruct (commentGuard (trim value) a) eqn:Hg.
    + rewrite (followUpButton_click_store _ _ _ _ _ Hg). unfold followUpButton_updater.
      by rewrite lookup_insert_ne.
    + unfold followUpButton_click. by rewrite Hg.
  - destruct (commentGuard (trim value) a) eqn:Hg.
    + rewrite (replyFollowUp_click_store _ _ _ _ _ Hg). unfold followUpButton_updater.
      by rewrite lookup_insert_ne.
    + unfold replyFollowUp_click. by rewrite Hg.
  - simpl. by apply handleReply_updater_elsewhere.
Qed.

Lemma step_paras dom op a id :
  opAnchor op = Some id → paras (step dom op a) = paras a.
Proof.
  intros Hop. destruct op; simpl in Hop; try discriminate; simpl step.
  - unfold createCommentOnSelection, createCommentBubble. simpl. by destruct (_ || _).
  - unfold commentForm_onsubmit. destruct (negb _); [done|].
    rewrite (proj2 (flowingDocSend_store _ _)). unfold updateBubbleContent.
    destruct (_ || _); [destruct (truthy _)|]; done.
  - unfold commentButton_click. destruct (negb _); [done|]. simpl.
    by rewrite (proj2 (flowingDocSend_store _ _)).
  - unfold followUpButton_click. destruct (negb _); [done|]. simpl.
    by rewrite (proj2 (flowingDocSend_store _ _)).
  - unfold replyFollowUp_click. destruct (negb _); [done|]. simpl.
    by rewrite (proj2 (flowingDocSend_store _ _)).
  - done.
Qed.

(** X4. Anchor creation, each submit handler and a reply touch one entry of
    the store only: the entry, thread and waiting state of every other
    anchor, and the transcript, are as before. *)
Theorem operation_confined_to_its_anchor
    (dom : Dom) (op : Op) (a : App) (id id' : jsstring) :
  opAnchor op = Some id →
  id ≠ id' →
  bubbleMessages (step dom op a) !! id' = bubbleMessages a !! id'
  ∧ readThread id' (step dom op a) = readThread id' a
  ∧ awaitingReply id' (step dom op a) = awaitingReply id' a
  ∧ paras (step dom op a) = paras a.
Proof.
  intros Hop Hne.
  pose proof (step_entry_elsewhere dom op a id id' Hop Hne) as He.
  split; [done|]. unfold readThread, awaitingReply. rewrite He.
  split; [done|]. split; [done|]. by eapply step_paras.
Qed.

Lemma operation_confined_to_its_anchor_witness :
  readThread (lit "sel-1")
    (step exampleDom (applyAssistantReply (lit "sel-9") (lit "late reply")) settledApp)
  = readThread (lit "sel-1") settledApp.
Proof.
  refine (proj1 (proj2 (operation_confined_to_its_anchor exampleDom
    (applyAssistantReply (lit "sel-9") (lit "late reply")) settledApp
    (lit "sel-9") (lit "sel-1") eq_refl _))).
  vm_compute. discriminate.
Defined.

(** X5. The comment button, the two follow-up buttons and a reply never
    rewrite a thread: the thread of every anchor before the operation is a
    prefix of its thread after it. *)
Theorem threads_only_grow (dom : Dom) (op : Op) (a : App) (id : jsstring) :
  extendsThread op = true →
  readThread id a `prefix_of` readThread id (step dom op a).
Proof.
  intros Hop.
  destruct (opAnchor op) as [target|] eqn:Ht; [|by destruct op].
  destruct (decide (target = id)) as [->|Hne];
    [|unfold readThread; by rewrite (step_entry_elsewhere dom op a target id Ht Hne)].
  assert (Hfollow : ∀ text,
    readThread id a `prefix_of`
      historyOrEmpty (conversationHistory (mkBubble text None
        (Some (readThread id a ++ [mkTurn user text]))))).
  { intros text. simpl. by eexists. }
  destruct op; simpl in Hop, Ht; try discriminate; injection Ht as ->; simpl step.
  - destruct (commentGuard (trim value) a) eqn:Hg;
      [|unfold commentButton_click; by rewrite Hg].
    unfold readThread at 2. rewrite (commentButton_click_store _ _ _ _ _ Hg).
    unfold commentButton_updater. rewrite lookup_insert_eq. simpl.
    unfold readThread. destruct (bubbleMessages a !! id) as [b|]; [|apply prefix_nil].
    destruct (historyOrEmpty (conversationHistory b)) as [|t h]; [apply prefix_nil|].
    simpl. by eexists [_].
  - destruct (commentGuard (trim value) a) eqn:Hg;
      [|unfold followUpButton_click; by rewrite Hg].
    unfold readThread at 2. rewrite (followUpButton_click_store _ _ _ _ _ Hg).
    unfold followUpButton_updater. rewrite lookup_insert_eq. apply Hfollow.
  - destruct (commentGuard (trim value) a) eqn:Hg;
      [|unfold replyFollowUp_click; by rewrite Hg].
    unfold readThread at 2. rewrite (replyFollowUp_click_store _ _ _ _ _ Hg).
    unfold followUpButton_updater. rewrite lookup_insert_eq. apply Hfollow.
  - unfold readThread. simpl bubbleMessages.
    destruct (bubbleMessages a !! id) as [b|] eqn:Hb.
    + rewrite (handleReply_updater_some _ _ _ _ b Hb), lookup_insert_eq. simpl.
      unfold repliedHistory.
      destruct (last (historyOrEmpty (conversationHistory b))) as [t|] eqn:Hl.
      * case_bool_decide; [by eexists|done].
      * apply last_None in Hl. rewrite Hl. apply prefix_nil.
    + apply prefix_nil.
Qed.

Lemma threads_only_grow_witness :
  readThread (lit "sel-1") settledApp `prefix_of`
    readThread (lit "sel-1")
      (step exampleDom (submitFollowUp (lit "sel-1") (lit "orig snippet") (lit "more?"))
         settledApp).
Proof.
  apply (threads_only_grow exampleDom
    (submitFollowUp (lit "sel-1") (lit "orig snippet") (lit "more?")) settledApp
    (lit "sel-1")).
  reflexivity.
Defined.

(** ** Submitting a comment *)

Lemma truthy_nonempty (s : jsstring) : truthy s = true ↔ s ≠ [].
Proof. by destruct s. Qed.

Lemma commentGuard_passes text a i :
  text ≠ [] → flowingDocWs a = Some i → commentGuard text a = true.
Proof.
  intros Ht Hws. unfold commentGuard. rewrite Hws.
  by rewrite (proj2 (truthy_nonempty text) Ht).
Qed.

Lemma socketSend_open i f a s :
  sockets a !! i = Some s → readyState s = OPEN →
  socketSend i f a
  = completes (set_sockets
      (λ ss, <[i := mkSocket OPEN (sentFrames s ++ [f]) (openListeners s)]> ss) a).
Proof. intros Hs Hr. unfold socketSend. by rewrite Hs, Hr. Qed.

Lemma socketSend_not_open i f a s :
  sockets a !! i = Some s → readyState s ≠ OPEN →
  after (socketSend i f a) = a
  ∧ thrown (socketSend i f a)
    = if decide (readyState s = CONNECTING) then Some InvalidStateError else None.
Proof.
  intros Hs Hr. unfold socketSend. rewrite Hs. by destruct (readyState s).
Qed.

Lemma flowingDocSend_open f a i s :
  flowingDocWs a = Some i → sockets a !! i = Some s → readyState s = OPEN →
  flowingDocSend f a
  = completes (set_sockets
      (λ ss, <[i := mkSocket OPEN (sentFrames s ++ [f]) (openListeners s)]> ss) a).
Proof.
  intros Hws Hs Hr. unfold flowingDocSend. rewrite Hws. by apply socketSend_open.
Qed.

Lemma socketSend_not_open_fd f a i s :
  flowingDocWs a = Some i → sockets a !! i = Some s → readyState s ≠ OPEN →
  after (flowingDocSend f a) = a
  ∧ thrown (flowingDocSend f a)
    = if decide (readyState s = CONNECTING) then Some InvalidStateError else None.
Proof.
  intros Hws Hs Hr. unfold flowingDocSend. rewrite Hws.
  by apply socketSend_not_open.
Qed.

Lemma sentOn_after_send i f a s :
  sockets a !! i = Some s →
  let a' := set_sockets
      (λ ss, <[i := mkSocket OPEN (sentFrames s ++ [f]) (openListeners s)]> ss) a in
  sentOn i a' = sentOn i a ++ [f]
  ∧ ∀ j, j ≠ i → sockets a' !! j = sockets a !! j.
Proof.
  intros Hs a'. unfold sentOn. simpl. split.
  - rewrite list_lookup_insert_eq by (by eapply lookup_lt_Some). by rewrite Hs.
  - intros j Hne. by rewrite list_lookup_insert_ne.
Qed.

Lemma followUp_entry (id text : jsstring) (m : gmap jsstring Bubble) :
  followUpButton_updater id text m !! id
  = Some (mkBubble text None
            (Some (match m !! id with
                   | Some b => historyOrEmpty (conversationHistory b)
                   | None => []
                   end ++ [mkTurn user text]))).
Proof. unfold followUpButton_updater. by rewrite lookup_insert_eq. Qed.

(** The two follow-up buttons run the same code on the same state. *)
Lemma replyFollowUp_click_same dom id h value a :
  replyFollowUp_click dom id h value a = followUpButton_click dom id h value a.
Proof. reflexivity. Qed.

(** X6. A follow-up with visible text, submitted while FlowingDoc's socket
    is open, is stored and sent: nothing is thrown, the thread gains one
    USER turn holding the trimmed text, the anchor waits for a reply, and
    exactly one comment frame (trimmed text, [isFollowup] set) is handed to
    that socket; other sockets and the transcript are untouched. Both
    follow-up buttons behave so. *)
Theorem follow_up_stored_and_sent
    (dom : Dom) (id highlightedText value : jsstring) (a : App) (i : nat) (s : Socket) :
  trim value ≠ [] →
  flowingDocWs a = Some i →
  sockets a !! i = Some s →
  readyState s = OPEN →
  let o := followUpButton_click dom id highlightedText value a in
  thrown o = None
  ∧ readThread id (after o) = readThread id a ++ [mkTurn user (trim value)]
  ∧ awaitingReply id (after o) = true
  ∧ sentOn i (after o)
    = sentOn i a ++ [CommentFrame id (trim value) highlightedText (paraText dom id) true]
  ∧ (∀ j, j ≠ i → sockets (after o) !! j = sockets a !! j)
  ∧ paras (after o) = paras a
  ∧ replyFollowUp_click dom id highlightedText value a = o.
Proof.
  intros Ht Hws Hs Hr o.
  pose proof (commentGuard_passes _ a i Ht Hws) as Hg.
  assert (Hstore : bubbleMessages (after o)
            = followUpButton_updater id (trim value) (bubbleMessages a))
    by (by apply followUpButton_click_store).
  assert (Ho : o = completes (set_sockets
      (λ ss, <[i := mkSocket OPEN
         (sentFrames s ++ [CommentFrame id (trim value) highlightedText
                             (paraText dom id) true]) (openListeners s)]> ss)
      (updateBubbleMessages (followUpButton_updater id (trim value)) a))).
  { subst o. unfold followUpButton_click. rewrite Hg. cbn [negb].
    by rewrite (flowingDocSend_open _
      (updateBubbleMessages (followUpButton_updater id (trim value)) a) i s Hws Hs Hr). }
  assert (Hthread : readThread id (after o)
            = readThread id a ++ [mkTurn user (trim value)]).
  { unfold readThread. by rewrite Hstore, followUp_entry. }
  split; [by rewrite Ho|]. split; [done|]. split; [|split; [|split; [|split]]].
  - unfold awaitingReply. rewrite Hstore, followUp_entry. simpl.
    by rewrite last_snoc.
  - rewrite Ho. simpl after.
    apply (sentOn_after_send i _
             (updateBubbleMessages (followUpButton_updater id (trim value)) a) s Hs).
  - rewrite Ho. simpl after.
    apply (sentOn_after_send i _
             (updateBubbleMessages (followUpButton_updater id (trim value)) a) s Hs).
  - by rewrite Ho.
  - reflexivity.
Qed.

Lemma follow_up_stored_and_sent_witness :
  sentOn 1
    (after (followUpButton_click exampleDom (lit "sel-1") (lit "orig snippet")
              (lit "  more? ") settledApp))
  = sentOn 1 settledApp
    ++ [CommentFrame (lit "sel-1") (lit "more?") (lit "orig snippet")
          (paraText exampleDom (lit "sel-1")) true].
Proof.
  refine (proj1 (proj2 (proj2 (proj2 (follow_up_stored_and_sent exampleDom
    (lit "sel-1") (lit "orig snippet") (lit "  more? ") settledApp 1%nat
    (mkSocket OPEN
       [CommentFrame (lit "sel-1") (lit "x") (lit "orig snippet")
          (paraText exampleDom (lit "sel-1")) true] [])
    _ _ _ _))))).
  - vm_compute. discriminate.
  - reflexivity.
  - vm_compute. reflexivity.
  - reflexivity.
Defined.

(** X7. When FlowingDoc's socket is not open, the comment button and the
    two follow-up buttons still store the USER turn and leave the anchor
    waiting, but no socket receives anything and no exception leaves the
    handler (the error of a connecting socket is caught): the frame is
    lost. *)
Theorem turn_stored_though_frame_lost
    (dom : Dom) (id highlightedText value : jsstring) (a : App) (i : nat) (s : Socket) :
  trim value ≠ [] →
  flowingDocWs a = Some i →
  sockets a !! i = Some s →
  readyState s ≠ OPEN →
  Forall (λ o, thrown o = None
               ∧ sockets (after o) = sockets a
               ∧ last (readThread id (after o)) = Some (mkTurn user (trim value))
               ∧ awaitingReply id (after o) = true)
    [ commentButton_click dom id highlightedText value a;
      followUpButton_click dom id highlightedText value a;
      replyFollowUp_click dom id highlightedText value a ].
Proof.
  intros Ht Hws Hs Hr.
  pose proof (commentGuard_passes _ a i Ht Hws) as Hg.
  assert (Hsend : ∀ f a1, sockets a1 = sockets a → flowingDocWs a1 = Some i →
            sockets (after (tryCatch (flowingDocSend f a1))) = sockets a).
  { intros f a1 Hsock Hws1. simpl. unfold flowingDocSend. rewrite Hws1.
    assert (Hs1 : sockets a1 !! i = Some s) by (by rewrite Hsock).
    by rewrite (proj1 (socketSend_not_open i f a1 s Hs1 Hr)). }
  assert (Hfollow : thrown (followUpButton_click dom id highlightedText value a) = None
    ∧ sockets (after (followUpButton_click dom id highlightedText value a)) = sockets a
    ∧ last (readThread id (after (followUpButton_click dom id highlightedText value a)))
      = Some (mkTurn user (trim value))
    ∧ awaitingReply id (after (followUpButton_click dom id highlightedText value a))
      = true).
  { split; [|split; [|split]].
    - unfold followUpButton_click. by rewrite Hg.
    - unfold followUpButton_click. rewrite Hg. simpl negb. cbv iota.
      by apply Hsend.
    - unfold readThread. rewrite (followUpButton_click_store _ _ _ _ _ Hg).
      rewrite followUp_entry. simpl. by rewrite last_snoc.
    - unfold awaitingReply. rewrite (followUpButton_click_store _ _ _ _ _ Hg).
      rewrite followUp_entry. simpl. by rewrite last_snoc. }
  repeat constructor; try apply Hfollow.
  - unfold commentButton_click. by rewrite Hg.
  - unfold commentButton_click. rewrite Hg. simpl negb. cbv iota. by apply Hsend.
  - unfold readThread. rewrite (commentButton_click_store _ _ _ _ _ Hg).
    unfold commentButton_updater. rewrite lookup_insert_eq. simpl.
    by rewrite last_snoc.
  - unfold awaitingReply. rewrite (commentButton_click_store _ _ _ _ _ Hg).
    unfold commentButton_updater. rewrite lookup_insert_eq. simpl.
    by rewrite last_snoc.
Qed.

Lemma turn_stored_though_frame_lost_witness :
  Forall (λ o, thrown o = None
               ∧ sockets (after o) = sockets (App_mount initialApp)
               ∧ last (readThread (lit "sel-1") (after o))
                 = Some (mkTurn user (lit "why?"))
               ∧ awaitingReply (lit "sel-1") (after o) = true)
    [ commentButton_click exampleDom (lit "sel-1") (lit "orig snippet") (lit "why?")
        (App_mount initialApp);
      followUpButton_click exampleDom (lit "sel-1") (lit "orig snippet") (lit "why?")
        (App_mount initialApp);
      replyFollowUp_click exampleDom (lit "sel-1") (lit "orig snippet") (lit "why?")
        (App_mount initialApp) ].
Proof.
  apply (turn_stored_though_frame_lost exampleDom (lit "sel-1") (lit "orig snippet")
           (lit "why?") (App_mount initialApp) 1%nat newSocket).
  - vm_compute. discriminate.
  - reflexivity.
  - reflexivity.
  - discriminate.
Defined.

Lemma rev_is_reverse (s : jsstring) : rev s = reverse s.
Proof. by rewrite rev_alt. Qed.

Lemma trimStart_split (s : jsstring) :
  ∃ k, s = k ++ trimStart s ∧ forallb isWhiteSpace k = true.
Proof.
  induction s as [|c s (k & Hk & Hws)]; [by exists []|]. simpl.
  destruct (isWhiteSpace c) eqn:Hc.
  - exists (c :: k). simpl. rewrite Hc, Hws. split; [by f_equal|done].
  - by exists [].
Qed.

Lemma trimStart_head (s : jsstring) c :
  head (trimStart s) = Some c → isWhiteSpace c = false.
Proof.
  induction s as [|c' s IH]; simpl; [done|].
  destruct (isWhiteSpace c') eqn:Hc; [done|]. simpl. by intros [= <-].
Qed.

(** The trimmed text begins and ends with a code unit that is not
    whitespace. *)
Lemma trim_clean (s : jsstring) c :
  (head (trim s) = Some c → isWhiteSpace c = false)
  ∧ (last (trim s) = Some c → isWhiteSpace c = false).
Proof.
  unfold trim, trimEnd. rewrite !rev_is_reverse. split.
  - destruct (trimStart_split (reverse (trimStart s))) as (k & Hk & _).
    apply (f_equal reverse) in Hk. rewrite reverse_involutive, reverse_app in Hk.
    intros Hh. apply (trimStart_head s). rewrite Hk.
    rewrite head_app. by rewrite Hh.
  - rewrite last_reverse. apply trimStart_head.
Qed.

(** X8. The form of a new bubble stores the trimmed comment before it
    sends: whatever the state of FlowingDoc's socket, the entry then holds
    the comment and waits for a reply. The frame is handed over only on an
    open socket; on a connecting socket the handler ends with the
    InvalidStateError of [send], which nothing catches, and on a closing or
    closed socket the frame is dropped silently. *)
Theorem initial_comment_stored_before_send
    (dom : Dom) (snapshot : gmap jsstring Bubble)
    (id highlightedText value : jsstring) (a : App) (i : nat) (s : Socket) :
  trim value ≠ [] →
  flowingDocWs a = Some i →
  sockets a !! i = Some s →
  let o := commentForm_onsubmit dom snapshot id highlightedText value a in
  thrown o = match readyState s with
             | CONNECTING => Some InvalidStateError
             | _ => None
             end
  ∧ (userComment <$> bubbleMessages (after o) !! id) = Some (trim value)
  ∧ (aiReply <$> bubbleMessages (after o) !! id) = Some None
  ∧ awaitingReply id (after o) = true
  ∧ sentOn i (after o)
    = sentOn i a ++ match readyState s with
                    | OPEN => [CommentFrame id (trim value) highlightedText
                                 (paraText dom id) false]
                    | _ => []
                    end.
Proof.
  intros Ht Hws Hs o.
  pose proof (commentGuard_passes _ a i Ht Hws) as Hg.
  pose proof (commentForm_onsubmit_store dom snapshot id highlightedText value a Hg)
    as Hstore. fold o in Hstore.
  assert (Hsend : ∃ a2, sockets a2 = sockets a ∧ flowingDocWs a2 = Some i
            ∧ o = flowingDocSend (CommentFrame id (trim value) highlightedText
                                    (paraText dom id) false) a2).
  { subst o. unfold commentForm_onsubmit. rewrite Hg. cbn [negb].
    eexists. split; [|split; [|reflexivity]].
    - unfold updateBubbleContent.
      destruct (_ || _); [destruct (truthy (trim value))|]; done.
    - unfold updateBubbleContent.
      destruct (_ || _); [destruct (truthy (trim value))|]; done. }
  destruct Hsend as (a2 & Hsock & Hws2 & Ho).
  assert (Hs2 : sockets a2 !! i = Some s) by (by rewrite Hsock).
  split; [|split; [|split; [|split]]].
  - rewrite Ho. unfold flowingDocSend, socketSend. rewrite Hws2, Hs2.
    by destruct (readyState s).
  - by rewrite Hstore, lookup_insert_eq.
  - by rewrite Hstore, lookup_insert_eq.
  - unfold awaitingReply. rewrite Hstore, lookup_insert_eq. simpl.
    destruct (_ || _); simpl; [done|].
    by rewrite (proj2 (truthy_nonempty _) Ht).
  - rewrite Ho. unfold sentOn at 2. rewrite Hs.
    destruct (readyState s) eqn:Hr.
    + rewrite (proj1 (socketSend_not_open_fd _ a2 i s Hws2 Hs2 ltac:(by rewrite Hr))).
      unfold sentOn. rewrite Hs2. by rewrite app_nil_r.
    + rewrite (flowingDocSend_open _ a2 i s Hws2 Hs2 Hr). simpl after.
      rewrite (proj1 (sentOn_after_send i _ a2 s Hs2)). unfold sentOn. by rewrite Hs2.
    + rewrite (proj1 (socketSend_not_open_fd _ a2 i s Hws2 Hs2 ltac:(by rewrite Hr))).
      unfold sentOn. rewrite Hs2. by rewrite app_nil_r.
    + rewrite (proj1 (socketSend_not_open_fd _ a2 i s Hws2 Hs2 ltac:(by rewrite Hr))).
      unfold sentOn. rewrite Hs2. by rewrite app_nil_r.
Qed.

Lemma initial_comment_stored_before_send_witness :
  thrown (commentForm_onsubmit exampleDom ∅ (lit "sel-1") (lit "orig snippet")
            (lit " why? ") (App_mount initialApp)) = Some InvalidStateError
  ∧ awaitingReply (lit "sel-1")
      (after (commentForm_onsubmit exampleDom ∅ (lit "sel-1") (lit "orig snippet")
                (lit " why? ") (App_mount initialApp))) = true.
Proof.
  pose proof (initial_comment_stored_before_send exampleDom ∅ (lit "sel-1")
    (lit "orig snippet") (lit " why? ") (App_mount initialApp) 1%nat newSocket) as H.
  simpl in H. split; apply H; try reflexivity; vm_compute; discriminate.
Defined.

(** X9. An initial comment followed by the reply gives the two-turn thread
    [[{USER, trimmed comment}; {ASSISTANT, reply}]], whether or not the
    closure that ran [updateBubbleContent] had seen the entry (that is,
    whether the entry was left with or without a stored turn list). *)
Theorem initial_comment_then_reply
    (dom dom' : Dom) (snapshot : gmap jsstring Bubble)
    (id highlightedText value text : jsstring) (a : App) :
  commentGuard (trim value) a = true →
  readThread id
    (after (handleReply dom' id text
       (after (commentForm_onsubmit dom snapshot id highlightedText value a))))
  = [mkTurn user (trim value); mkTurn ai text].
Proof.
  intros Hg. unfold readThread. rewrite handleReply_store.
  pose proof (commentForm_onsubmit_store dom snapshot id highlightedText value a Hg)
    as Hstore.
  erewrite handleReply_updater_some by (rewrite Hstore; apply lookup_insert_eq).
  rewrite lookup_insert_eq. simpl. unfold repliedHistory. simpl.
  apply andb_prop in Hg as [Ht _].
  destruct (_ || _); simpl; [done|]. by rewrite Ht.
Qed.

Lemma initial_comment_then_reply_witness :
  commentGuard (trim (lit " why? ")) readyApp = true
  ∧ readThread (lit "sel-1")
      (after (handleReply exampleDom (lit "sel-1") (lit "because...")
         (after (commentForm_onsubmit exampleDom ∅ (lit "sel-1") (lit "orig snippet")
                   (lit " why? ") readyApp))))
    = [mkTurn user (lit "why?"); mkTurn ai (lit "because...")].
Proof.
  split; [reflexivity|].
  apply (initial_comment_then_reply exampleDom exampleDom ∅ (lit "sel-1")
           (lit "orig snippet") (lit " why? ") (lit "because...") readyApp).
  reflexivity.
Defined.

(** X10. Each submit handler that passes its guard leaves the trimmed text
    as the entry's user comment: a string that is not empty and neither
    begins nor ends with whitespace. *)
Theorem stored_comment_is_trimmed
    (dom : Dom) (snapshot : gmap jsstring Bubble)
    (id highlightedText value : jsstring) (a : App) :
  commentGuard (trim value) a = true →
  Forall (λ o, (userComment <$> bubbleMessages (after o) !! id) = Some (trim value))
    [ commentForm_onsubmit dom snapshot id highlightedText value a;
      commentButton_click dom id highlightedText value a;
      followUpButton_click dom id highlightedText value a;
      replyFollowUp_click dom id highlightedText value a ]
  ∧ trim value ≠ []
  ∧ (∀ c, head (trim value) = Some c → isWhiteSpace c = false)
  ∧ (∀ c, last (trim value) = Some c → isWhiteSpace c = false).
Proof.
  intros Hg. split; [|split; [|split]].
  - repeat constructor.
    + by rewrite (commentForm_onsubmit_store _ _ _ _ _ _ Hg), lookup_insert_eq.
    + rewrite (commentButton_click_store _ _ _ _ _ Hg). unfold commentButton_updater.
      by rewrite lookup_insert_eq.
    + by rewrite (followUpButton_click_store _ _ _ _ _ Hg), followUp_entry.
    + by rewrite (replyFollowUp_click_store _ _ _ _ _ Hg), followUp_entry.
  - apply andb_prop in Hg as [Ht _]. by apply truthy_nonempty.
  - intros c. apply trim_clean.
  - intros c. apply trim_clean.
Qed.

Lemma stored_comment_is_trimmed_witness :
  (userComment <$>
     bubbleMessages (after (commentButton_click exampleDom (lit "sel-1")
        (lit "orig snippet") [0x09; 0x20; 119; 104; 121; 63; 0xA0; 0x0A] readyApp))
       !! lit "sel-1")
  = Some (lit "why?").
Proof.
  pose proof (stored_comment_is_trimmed exampleDom ∅ (lit "sel-1")
    (lit "orig snippet") [0x09; 0x20; 119; 104; 121; 63; 0xA0; 0x0A] readyApp eq_refl)
    as [H _].
  apply Forall_cons in H as [_ H]. apply Forall_cons in H as [H _]. exact H.
Defined.

(** ** Anchors and the session reset *)

Lemma withSpan_present id highlighted dom :
  is_Some (textContent (withSpan id highlighted dom) !! id).
Proof.
  unfold withSpan. simpl. destruct (textContent dom !! id) eqn:E.
  - by rewrite E.
  - by rewrite lookup_insert_eq.
Qed.

(** X11. While the document is mounted, creating an anchor always leaves
    its id with a fresh draft entry (no comment, no reply, no turns),
    whatever that id held before: a second selection in the same
    millisecond wipes the thread of the first. Every other entry and the
    transcript stay as they are. *)
Theorem anchor_creation_resets_entry
    (now : Z) (highlighted : jsstring) (dom : Dom) (a : App) :
  docRef dom = true →
  let id := (createCommentOnSelection now highlighted dom a).1 in
  let a' := (createCommentOnSelection now highlighted dom a).2 in
  bubbleMessages a' !! id = Some (mkBubble [] None (Some []))
  ∧ readThread id a' = []
  ∧ statusOf (readThread id a') = DRAFT
  ∧ awaitingReply id a' = false
  ∧ (∀ id', id' ≠ id → bubbleMessages a' !! id' = bubbleMessages a !! id')
  ∧ paras a' = paras a.
Proof.
  intros Hdoc id a'.
  assert (Hstore : bubbleMessages a'
            = <[id := mkBubble [] None (Some [])]> (bubbleMessages a)).
  { subst a' id. simpl. rewrite createCommentBubble_store.
    rewrite bool_decide_eq_true_2 by apply withSpan_present.
    simpl. by rewrite Hdoc. }
  assert (He : bubbleMessages a' !! id = Some (mkBubble [] None (Some [])))
    by (by rewrite Hstore, lookup_insert_eq).
  split; [done|]. unfold readThread, awaitingReply. rewrite He.
  split; [done|]. split; [done|]. split; [done|]. split.
  - intros id' Hne. by rewrite Hstore, lookup_insert_ne.
  - subst a'. simpl. unfold createCommentBubble. by destruct (_ || _).
Qed.

Lemma anchor_creation_resets_entry_witness :
  readThread (lit "sel-1") settledApp
    = [mkTurn user (lit "x"); mkTurn ai (lit "y")]
  ∧ readThread (lit "sel-1")
      (createCommentOnSelection 1 (lit "vector") exampleDom settledApp).2 = [].
Proof.
  split; [vm_compute; reflexivity|].
  apply (anchor_creation_resets_entry 1 (lit "vector") exampleDom settledApp).
  reflexivity.
Defined.

(** X12. A reply that arrives after the session reset, for an anchor the
    reset has cleared, brings an entry back: the store then holds exactly
    that anchor, with the thread
    [[{USER, text of its span on the page}; {ASSISTANT, reply}]], and the
    transcript still holds the narration line alone. The id is one that
    names no property of [Object.prototype], as is every anchor id
    ([anchorId_not_inherited]). *)
Theorem late_reply_revives_cleared_anchor
    (page : Dom) (id text detail : jsstring) (a : App) :
  inheritedProperty id = false →
  let a' := after (handleReply page id text (narrativeHandler detail a)) in
  readThread id a' = [mkTurn user (spanText page id); mkTurn ai text]
  ∧ dom (bubbleMessages a') = ({[ id ]} : gset jsstring)
  ∧ paras a' = [detail].
Proof.
  intros Hi a'.
  assert (Hstore : bubbleMessages a'
    = <[id := mkBubble (spanText page id) (Some text)
                (Some [mkTurn user (spanText page id); mkTurn ai text])]> ∅).
  { subst a'. rewrite handleReply_store. simpl.
    by rewrite handleReply_updater_none by (done || apply lookup_empty). }
  split; [|split; [|done]].
  - unfold readThread. by rewrite Hstore, lookup_insert_eq.
  - rewrite Hstore, dom_insert_L, dom_empty_L. apply (right_id_L ∅ (∪)).
Qed.

Lemma late_reply_revives_cleared_anchor_witness :
  inheritedProperty (lit "sel-1") = false
  ∧ readThread (lit "sel-1")
      (after (handleReply exampleDom (lit "sel-1") (lit "late")
                (narrativeHandler (lit "A new matrix.") settledApp)))
    = [mkTurn user (lit "orig snippet"); mkTurn ai (lit "late")].
Proof.
  split; [vm_compute; reflexivity|].
  refine (proj1 (late_reply_revives_cleared_anchor exampleDom (lit "sel-1")
    (lit "late") (lit "A new matrix.") settledApp _)).
  vm_compute. reflexivity.
Defined.

Lemma appendHandler_lines lines a :
  paras (foldl (λ acc line, appendHandler line acc) a lines) = paras a ++ lines
  ∧ bubbleMessages (foldl (λ acc line, appendHandler line acc) a lines)
    = bubbleMessages a.
Proof.
  revert a. induction lines as [|l lines IH]; intros a; simpl.
  - by rewrite app_nil_r.
  - destruct (IH (appendHandler l a)) as [-> ->]. simpl. by rewrite <- app_assoc.
Qed.

(** X13. After a session reset the transcript is the narration line
    followed by exactly the lines appended since, in order; appended lines
    never touch the store, and the next reset drops them all. *)
Theorem transcript_after_reset (detail detail' : jsstring) (lines : list jsstring) (a : App) :
  let a' := foldl (λ acc line, appendHandler line acc) (narrativeHandler detail a) lines in
  paras a' = detail :: lines
  ∧ bubbleMessages a' = ∅
  ∧ paras (narrativeHandler detail' a') = [detail'].
Proof.
  intros a'. subst a'.
  destruct (appendHandler_lines lines (narrativeHandler detail a)) as [-> ->].
  done.
Qed.

(** ** The shared socket used on its own *)

Lemma liveWithin_refl a : liveWithin a a.
Proof. split; eauto. Qed.

Lemma liveWithin_trans a b c : liveWithin a b → liveWithin b c → liveWithin a c.
Proof.
  intros [Hw1 H1] [Hw2 H2]. split; [congruence|].
  intros j s Hs Hl. destruct (H2 j s Hs Hl) as (s' & Hs' & Hl'). eauto.
Qed.

Lemma onlySharedLive_within a a' :
  onlySharedLive a → liveWithin a a' → onlySharedLive a'.
Proof.
  intros Hinv [Hws Hlive] j s' Hs' Hl'.
  destruct (Hlive j s' Hs' Hl') as (s & Hs & Hl). rewrite Hws. eauto.
Qed.

(** Replacing a socket by one of the same liveness, or by a dead one. *)
Lemma liveWithin_replace a i s s' :
  sockets a !! i = Some s → (isLive s' = true → isLive s = true) →
  liveWithin a (set_sockets (λ ss, <[i := s']> ss) a).
Proof.
  intros Hs Himp. split; [done|]. simpl. intros j x Hx Hl.
  destruct (decide (i = j)) as [->|Hne].
  - rewrite list_lookup_insert_eq in Hx by (by eapply lookup_lt_Some).
    injection Hx as <-. eauto.
  - rewrite list_lookup_insert_ne in Hx by done. eauto.
Qed.

Lemma socketSend_liveWithin i f a : liveWithin a (after (socketSend i f a)).
Proof.
  unfold socketSend. destruct (sockets a !! i) as [s|] eqn:Hs;
    [|apply liveWithin_refl].
  destruct (readyState s) eqn:Hr; try apply liveWithin_refl. simpl.
  apply (liveWithin_replace a i s); [done|]. unfold isLive. by rewrite Hr.
Qed.

Lemma runCallback_onlySharedLive cb a :
  onlySharedLive a → onlySharedLive (after (runCallback cb a)).
Proof.
  intros Hinv. destruct cb as [text]. unfold runCallback.
  assert (Hsend : ∀ i a1, onlySharedLive a1 →
    onlySharedLive (after (andThen (socketSend i (ChatFrame text) a1)
      (λ a2, completes (setInput [] (appendHandler (userPrefix ++ text) a2)))))).
  { intros i a1 H1. unfold andThen.
    pose proof (onlySharedLive_within _ _ H1 (socketSend_liveWithin i (ChatFrame text) a1)).
    by destruct (thrown (socketSend i (ChatFrame text) a1)). }
  destruct (chatBarWs a) as [i|].
  - by apply Hsend.
  - pose proof (getWebSocket_onlySharedLive a Hinv).
    destruct (getWebSocket a) as [i a1]. by apply Hsend.
Qed.

Lemma whenSocketOpen_onlySharedLive cb a :
  onlySharedLive a → onlySharedLive (after (whenSocketOpen cb a)).
Proof.
  intros Hinv. unfold whenSocketOpen.
  pose proof (getWebSocket_onlySharedLive a Hinv) as H1.
  destruct (getWebSocket a) as [i a1]. simpl in H1.
  destruct (sockets a1 !! i) as [s|] eqn:Hs; [|done].
  destruct (readyState s) eqn:Hr; try (by apply runCallback_onlySharedLive);
    simpl; apply (onlySharedLive_within a1); try done;
    apply (liveWithin_replace a1 i s); try done; unfold isLive; simpl;
    by rewrite Hr.
Qed.

Lemma foldl_runCallback_onlySharedLive cbs a :
  onlySharedLive a →
  onlySharedLive (foldl (λ acc cb, after (runCallback cb acc)) a cbs).
Proof.
  revert a. induction cbs as [|cb cbs IH]; intros a Hinv; simpl; [done|].
  by apply IH, runCallback_onlySharedLive.
Qed.

Lemma stepShared_onlySharedLive op a :
  possible op a = true → onlySharedLive a → onlySharedLive (stepShared op a).
Proof.
  intros Hp Hinv. destruct op; simpl in *.
  - by apply getWebSocket_onlySharedLive.
  - unfold ChatBar_mount. pose proof (getWebSocket_onlySharedLive a Hinv).
    by destruct (getWebSocket a).
  - unfold send. destruct (negb _); [done|].
    by apply (whenSocketOpen_onlySharedLive _ (setInput text a)).
  - apply bool_decide_eq_true_1 in Hp. unfold socketOpened.
    destruct (sockets a !! i) as [s|] eqn:Hs; [|done].
    apply foldl_runCallback_onlySharedLive.
    apply (onlySharedLive_within a); [done|].
    apply (liveWithin_replace a i s); [done|].
    simpl in Hp. injection Hp as Hp. unfold isLive. by rewrite Hp.
  - apply bool_decide_eq_true_1 in Hp. unfold socketSetState.
    destruct (sockets a !! i) as [s|] eqn:Hs; [|done].
    apply (onlySharedLive_within a); [done|].
    apply (liveWithin_replace a i s); [done|].
    unfold isLive. simpl. by destruct Hp as [-> | ->].
Qed.

(** A list in which any two elements satisfying [P] sit at the same index
    has at most one element satisfying [P]. *)
Lemma filter_unique_length (l : list Socket) :
  (∀ i j x y, l !! i = Some x → l !! j = Some y →
              isLive x = true → isLive y = true → i = j) →
  (length (filter (λ s, isLive s = true) l) ≤ 1)%nat.
Proof.
  induction l as [|x l IH]; intros Huniq; [simpl; lia|].
  destruct (isLive x) eqn:Hx.
  - rewrite filter_cons_True by done.
    assert (Hnone : filter (λ s, isLive s = true) l = []).
    { destruct (filter (λ s, isLive s = true) l) as [|y ys] eqn:E; [done|].
      assert (Hy : y ∈ filter (λ s, isLive s = true) l) by (rewrite E; left).
      apply list_elem_of_filter in Hy as [Hly Hy].
      apply list_elem_of_lookup in Hy as [j Hj].
      by specialize (Huniq 0%nat (S j) x y eq_refl Hj Hx Hly). }
    rewrite Hnone. simpl. lia.
  - rewrite filter_cons_False by (by rewrite Hx).
    apply IH. intros i j y z Hy Hz Hly Hlz.
    assert (S i = S j) by (by eapply (Huniq (S i) (S j))). lia.
Qed.

Lemma onlySharedLive_count a : onlySharedLive a → (liveSockets a ≤ 1)%nat.
Proof.
  intros Hinv. apply filter_unique_length. intros i j x y Hx Hy Hlx Hly.
  pose proof (Hinv i x Hx Hlx) as Hi. pose proof (Hinv j y Hy Hly) as Hj.
  congruence.
Qed.

Lemma runShared_onlySharedLive ops a :
  allPossible ops a = true → onlySharedLive a → onlySharedLive (runShared ops a).
Proof.
  revert a. induction ops as [|op ops IH]; intros a Hp Hinv; simpl in *; [done|].
  apply andb_prop in Hp as [Hop Hrest].
  apply IH; [done|]. by apply stepShared_onlySharedLive.
Qed.

(** X14. When sockets are made through [getWebSocket] alone, at most one
    physical connection is outstanding at any time: along every sequence
    of mounts of MatrixPlayground and ChatBar, chat sends, sockets opening
    and sockets closing, started where the only live socket (if any) is
    the one in [ws], the number of live sockets stays at most one and any
    live socket is the one in [ws]. *)
Theorem shared_socket_stays_unique (ops : list SharedOp) (a : App) :
  onlySharedLive a →
  allPossible ops a = true →
  (liveSockets (runShared ops a) ≤ 1)%nat
  ∧ onlySharedLive (runShared ops a).
Proof.
  intros Hinv Hp. pose proof (runShared_onlySharedLive ops a Hp Hinv).
  split; [by apply onlySharedLive_count|done].
Qed.

Lemma shared_socket_stays_unique_witness :
  (liveSockets
    (runShared [ mountMatrixPlayground; mountChatBar; chatSend (lit "hi");
                 socketOpens 0; socketCloses 0 CLOSED; chatSend (lit "again");
                 mountMatrixPlayground; socketOpens 1 ] initialApp) ≤ 1)%nat.
Proof.
  apply (shared_socket_stays_unique
    [ mountMatrixPlayground; mountChatBar; chatSend (lit "hi");
      socketOpens 0; socketCloses 0 CLOSED; chatSend (lit "again");
      mountMatrixPlayground; socketOpens 1 ] initialApp).
  - intros j s Hs. vm_compute in Hs. discriminate.
  - vm_compute. reflexivity.
Defined.

(** ** ChatBar *)

(** The callback of [send] on an open socket held in ChatBar's ref. *)
Lemma runCallback_open cb a i s :
  chatBarWs a = Some i → sockets a !! i = Some s → readyState s = OPEN →
  runCallback cb a
  = completes (setInput [] (appendHandler (callbackLine cb)
      (set_sockets
         (λ ss, <[i := mkSocket OPEN (sentFrames s ++ [callbackFrame cb])
                          (openListeners s)]> ss) a))).
Proof.
  intros Hcb Hs Hr. destruct cb as [text]. unfold runCallback. rewrite Hcb.
  by rewrite (socketSend_open i _ a s Hs Hr).
Qed.

(** X15. With visible text in the box and the shared socket open (and held
    in ChatBar's ref), [send] hands one chat frame to that socket, appends
    the user's line to the transcript and clears the box. The frame and
    the line carry the input as typed, not trimmed; the store and the other
    sockets are untouched. *)
Theorem chat_line_sent_and_shown (a : App) (i : nat) (s : Socket) :
  trim (input a) ≠ [] →
  ws a = Some i →
  chatBarWs a = Some i →
  sockets a !! i = Some s →
  readyState s = OPEN →
  thrown (send a) = None
  ∧ sentOn i (after (send a)) = sentOn i a ++ [ChatFrame (input a)]
  ∧ (∀ j, j ≠ i → sockets (after (send a)) !! j = sockets a !! j)
  ∧ paras (after (send a)) = paras a ++ [userPrefix ++ input a]
  ∧ input (after (send a)) = []
  ∧ bubbleMessages (after (send a)) = bubbleMessages a.
Proof.
  intros Ht Hws Hcb Hs Hr.
  assert (Hsend : send a = completes (setInput [] (appendHandler (userPrefix ++ input a)
      (set_sockets
         (λ ss, <[i := mkSocket OPEN (sentFrames s ++ [ChatFrame (input a)])
                          (openListeners s)]> ss) a)))).
  { unfold send. rewrite (proj2 (truthy_nonempty _) Ht). cbn [negb].
    unfold whenSocketOpen.
    rewrite (getWebSocket_existing a i s Hws Hs) by (unfold isLive; by rewrite Hr).
    rewrite Hs, Hr.
    by rewrite (runCallback_open (ChatSendCallback (input a)) a i s Hcb Hs Hr). }
  rewrite Hsend. simpl thrown. simpl after.
  split; [done|]. split; [|split; [|done]].
  - apply (sentOn_after_send i (ChatFrame (input a)) a s Hs).
  - apply (sentOn_after_send i (ChatFrame (input a)) a s Hs).
Qed.

Lemma chat_line_sent_and_shown_witness :
  sentOn 0 (after (send (setInput (lit " hi") readyApp))) = [ChatFrame (lit " hi")]
  ∧ paras (after (send (setInput (lit " hi") readyApp))) = [userPrefix ++ lit " hi"].
Proof.
  pose proof (chat_line_sent_and_shown (setInput (lit " hi") readyApp) 0%nat
    (mkSocket OPEN [] [])) as H.
  split; apply H; try reflexivity; vm_compute; discriminate.
Defined.

(** What the "open" event does to a socket held in ChatBar's ref. *)
Lemma foldl_runCallback_open cbs a i sent :
  chatBarWs a = Some i →
  sockets a !! i = Some (mkSocket OPEN sent []) →
  let a' := foldl (λ acc cb, after (runCallback cb acc)) a cbs in
  sockets a' = <[i := mkSocket OPEN (sent ++ (callbackFrame <$> cbs)) []]> (sockets a)
  ∧ paras a' = paras a ++ (callbackLine <$> cbs)
  ∧ input a' = (if cbs is [] then input a else [])
  ∧ bubbleMessages a' = bubbleMessages a
  ∧ chatBarWs a' = Some i ∧ ws a' = ws a.
Proof.
  revert a sent. induction cbs as [|cb cbs IH]; intros a sent Hcb Hs; simpl.
  - rewrite !app_nil_r. by rewrite list_insert_id.
  - rewrite (runCallback_open cb a i _ Hcb Hs eq_refl). simpl after.
    set (a1 := setInput [] _).
    assert (Hs1 : sockets a1 !! i = Some (mkSocket OPEN (sent ++ [callbackFrame cb]) [])).
    { simpl. apply list_lookup_insert_eq. by eapply lookup_lt_Some. }
    destruct (IH a1 (sent ++ [callbackFrame cb]) Hcb Hs1)
      as (Hsock & Hparas & Hinput & Hstore & Hcb' & Hws').
    rewrite Hsock, Hparas, Hinput, Hstore, Hcb', Hws'. simpl.
    rewrite list_insert_insert_eq, <- !app_assoc. simpl.
    repeat split; try done. by destruct cbs.
Qed.

Lemma socketOpened_flush a i s :
  chatBarWs a = Some i →
  sockets a !! i = Some s →
  sockets (socketOpened i a)
  = <[i := mkSocket OPEN (sentFrames s ++ (callbackFrame <$> openListeners s)) []]>
      (sockets a)
  ∧ paras (socketOpened i a) = paras a ++ (callbackLine <$> openListeners s)
  ∧ input (socketOpened i a) = (if openListeners s is [] then input a else [])
  ∧ bubbleMessages (socketOpened i a) = bubbleMessages a
  ∧ chatBarWs (socketOpened i a) = Some i ∧ ws (socketOpened i a) = ws a.
Proof.
  intros Hcb Hs. unfold socketOpened. rewrite Hs.
  set (a0 := set_sockets _ a).
  assert (Hs0 : sockets a0 !! i = Some (mkSocket OPEN (sentFrames s) [])).
  { simpl. apply list_lookup_insert_eq. by eapply lookup_lt_Some. }
  destruct (foldl_runCallback_open (openListeners s) a0 i (sentFrames s) Hcb Hs0)
    as (Hsock & Hparas & Hinput & Hstore & Hcb' & Hws').
  rewrite Hsock, Hparas, Hinput, Hstore, Hcb', Hws'. simpl.
  by rewrite list_insert_insert_eq.
Qed.

(** X16. When a socket held in ChatBar's ref opens, every send deferred on
    it goes out exactly once, in the order the sends were made: their chat
    frames are handed to that socket, their lines are appended to the
    transcript, the listeners are gone, the other sockets and the store are
    untouched, and a repeated "open" event changes nothing further. *)
Theorem deferred_sends_go_out_once (a : App) (i : nat) (s : Socket) :
  chatBarWs a = Some i →
  sockets a !! i = Some s →
  let a' := socketOpened i a in
  sockets a' !! i
  = Some (mkSocket OPEN (sentFrames s ++ (callbackFrame <$> openListeners s)) [])
  ∧ (∀ j, j ≠ i → sockets a' !! j = sockets a !! j)
  ∧ paras a' = paras a ++ (callbackLine <$> openListeners s)
  ∧ bubbleMessages a' = bubbleMessages a
  ∧ socketOpened i a' = a'.
Proof.
  intros Hcb Hs a'.
  destruct (socketOpened_flush a i s Hcb Hs)
    as (Hsock & Hparas & Hinput & Hstore & Hcb' & Hws').
  fold a' in Hsock, Hparas, Hinput, Hstore, Hcb', Hws'.
  assert (Hi : sockets a' !! i
    = Some (mkSocket OPEN (sentFrames s ++ (callbackFrame <$> openListeners s)) [])).
  { rewrite Hsock. apply list_lookup_insert_eq. by eapply lookup_lt_Some. }
  split; [done|]. split; [|split; [done|split; [done|]]].
  - intros j Hne. rewrite Hsock. by apply list_lookup_insert_ne.
  - unfold socketOpened. rewrite Hi. simpl.
    destruct a' as [ss w f c b p inp]. unfold set_sockets. simpl in *.
    f_equal. by apply list_insert_id.
Qed.

Lemma deferred_sends_go_out_once_witness :
  sentOn 0
    (socketOpened 0
       (after (send (setInput (lit "hi")
          (ChatBar_mount (MatrixPlayground_mount initialApp))))))
  = [ChatFrame (lit "hi")].
Proof.
  unfold sentOn.
  rewrite (proj1 (deferred_sends_go_out_once
    (after (send (setInput (lit "hi")
       (ChatBar_mount (MatrixPlayground_mount initialApp)))))
    0%nat (mkSocket CONNECTING [] [ChatSendCallback (lit "hi")]) eq_refl eq_refl)).
  reflexivity.
Defined.

Lemma send_while_connecting a i s :
  trim (input a) ≠ [] → ws a = Some i → sockets a !! i = Some s →
  readyState s = CONNECTING →
  send a
  = completes (set_sockets
      (λ ss, <[i := mkSocket CONNECTING (sentFrames s)
                       (openListeners s ++ [ChatSendCallback (input a)])]> ss) a).
Proof.
  intros Ht Hws Hs Hr. unfold send. rewrite (proj2 (truthy_nonempty _) Ht).
  cbn [negb]. unfold whenSocketOpen.
  rewrite (getWebSocket_existing a i s Hws Hs) by (unfold isLive; by rewrite Hr).
  by rewrite Hs, Hr.
Qed.

Lemma sends_while_connecting n a i s :
  trim (input a) ≠ [] → ws a = Some i → sockets a !! i = Some s →
  readyState s = CONNECTING →
  Nat.iter n (λ acc, after (send acc)) a
  = set_sockets
      (λ ss, <[i := mkSocket CONNECTING (sentFrames s)
                       (openListeners s ++ replicate n (ChatSendCallback (input a)))]> ss)
      a.
Proof.
  intros Ht Hws Hs Hr. induction n as [|n IH]; simpl.
  - rewrite app_nil_r. destruct a as [ss w f c b p inp]. unfold set_sockets.
    simpl in *. f_equal. symmetry. apply list_insert_id. rewrite Hs.
    by destruct s; simpl in *; subst.
  - rewrite IH.
    set (a1 := set_sockets _ a).
    assert (Hs1 : sockets a1 !! i
      = Some (mkSocket CONNECTING (sentFrames s)
                (openListeners s ++ replicate n (ChatSendCallback (input a))))).
    { simpl. apply list_lookup_insert_eq. by eapply lookup_lt_Some. }
    rewrite (send_while_connecting a1 i _ Ht Hws Hs1 eq_refl).
    simpl. unfold set_sockets. simpl. f_equal.
    rewrite list_insert_insert_eq. do 2 f_equal.
    rewrite <- app_assoc. f_equal. symmetry. apply replicate_cons_app.
Qed.

(** X17. While the shared socket is connecting, [send] neither sends nor
    shows anything and leaves the text in the box; it only queues the line.
    Pressing Send [n] times therefore queues it [n] times, and when the
    socket opens the same chat frame is sent [n] times and the same line
    is appended to the transcript [n] times. *)
Theorem repeated_send_while_connecting (n : nat) (a : App) (i : nat) (s : Socket) :
  trim (input a) ≠ [] →
  ws a = Some i →
  chatBarWs a = Some i →
  sockets a !! i = Some s →
  readyState s = CONNECTING →
  let queued := Nat.iter n (λ acc, after (send acc)) a in
  sentOn i queued = sentOn i a
  ∧ paras queued = paras a
  ∧ input queued = input a
  ∧ sentOn i (socketOpened i queued)
    = sentOn i a ++ (callbackFrame <$> openListeners s)
        ++ replicate n (ChatFrame (input a))
  ∧ paras (socketOpened i queued)
    = paras a ++ (callbackLine <$> openListeners s)
        ++ replicate n (userPrefix ++ input a).
Proof.
  intros Ht Hws Hcb Hs Hr queued.
  assert (Hq : queued = set_sockets
      (λ ss, <[i := mkSocket CONNECTING (sentFrames s)
                       (openListeners s ++ replicate n (ChatSendCallback (input a)))]> ss)
      a) by (by apply sends_while_connecting).
  assert (Hsq : sockets queued !! i
    = Some (mkSocket CONNECTING (sentFrames s)
              (openListeners s ++ replicate n (ChatSendCallback (input a))))).
  { rewrite Hq. simpl. apply list_lookup_insert_eq. by eapply lookup_lt_Some. }
  assert (Hcbq : chatBarWs queued = Some i) by (by rewrite Hq).
  destruct (socketOpened_flush queued i _ Hcbq Hsq) as (Hsock & Hparas & _).
  unfold sentOn. rewrite Hsq, Hs, Hsock, Hparas. simpl.
  rewrite list_lookup_insert_eq by (by eapply lookup_lt_Some). simpl.
  rewrite !fmap_app, !fmap_replicate. simpl. by rewrite Hq.
Qed.

Lemma repeated_send_while_connecting_witness :
  sentOn 0
    (socketOpened 0
       (Nat.iter 2 (λ acc, after (send acc))
          (setInput (lit "hi") (ChatBar_mount (MatrixPlayground_mount initialApp)))))
  = [ChatFrame (lit "hi"); ChatFrame (lit "hi")].
Proof.
  refine (proj1 (proj2 (proj2 (proj2 (repeated_send_while_connecting 2
    (setInput (lit "hi") (ChatBar_mount (MatrixPlayground_mount initialApp)))
    0%nat newSocket _ eq_refl eq_refl eq_refl eq_refl))))).
  vm_compute. discriminate.
Defined.

Lemma allSent_snoc (ss : list Socket) (s : Socket) :
  concat (sentFrames <$> (ss ++ [s])) = concat (sentFrames <$> ss) ++ sentFrames s.
Proof. rewrite fmap_app, concat_app. simpl. by rewrite app_nil_r. Qed.

(** X18. Once the socket in ChatBar's ref has started closing or has closed,
    a chat line is shown but never sent: [send] makes [getWebSocket]
    construct a new socket and waits for it, and when that socket opens
    the callback hands the frame to the old socket in the ref, which drops
    it. No socket ever receives the frame, yet the line is appended to the
    transcript and the box is cleared. *)
Theorem chat_line_shown_but_lost_after_close (a : App) (i : nat) (s : Socket) :
  trim (input a) ≠ [] →
  ws a = Some i →
  chatBarWs a = Some i →
  sockets a !! i = Some s →
  isLive s = false →
  let fresh := length (sockets a) in
  let waiting := after (send a) in
  let opened := socketOpened fresh waiting in
  thrown (send a) = None
  ∧ ws waiting = Some fresh
  ∧ sockets waiting
    = sockets a ++ [mkSocket CONNECTING [] [ChatSendCallback (input a)]]
  ∧ paras waiting = paras a
  ∧ sockets opened = sockets a ++ [mkSocket OPEN [] []]
  ∧ allSent opened = allSent a
  ∧ paras opened = paras a ++ [userPrefix ++ input a]
  ∧ input opened = [].
Proof.
  intros Ht Hws Hcb Hs Hdead fresh waiting opened.
  assert (Hi : (i < length (sockets a))%nat) by (by eapply lookup_lt_Some).
  assert (Hsend : send a = completes (mkApp
      (sockets a ++ [mkSocket CONNECTING [] [ChatSendCallback (input a)]])
      (Some fresh) (flowingDocWs a) (chatBarWs a) (bubbleMessages a) (paras a)
      (input a))).
  { unfold send. rewrite (proj2 (truthy_nonempty _) Ht). cbn [negb].
    unfold whenSocketOpen. rewrite (getWebSocket_closed a i s Hws Hs Hdead).
    simpl. rewrite lookup_app_r by done. rewrite Nat.sub_diag. simpl.
    unfold set_sockets. simpl. do 2 f_equal.
    rewrite insert_app_r_alt by done. by rewrite Nat.sub_diag. }
  assert (Hw : waiting = mkApp
      (sockets a ++ [mkSocket CONNECTING [] [ChatSendCallback (input a)]])
      (Some fresh) (flowingDocWs a) (chatBarWs a) (bubbleMessages a) (paras a)
      (input a)) by (subst waiting; by rewrite Hsend).
  assert (Ho : opened = mkApp (sockets a ++ [mkSocket OPEN [] []])
      (Some fresh) (flowingDocWs a) (chatBarWs a) (bubbleMessages a)
      (paras a ++ [userPrefix ++ input a]) []).
  { subst opened. rewrite Hw. unfold socketOpened. simpl.
    rewrite lookup_app_r by done. subst fresh. rewrite Nat.sub_diag. simpl.
    rewrite Hcb. unfold socketSend. simpl.
    rewrite insert_app_r_alt by done. rewrite Nat.sub_diag. simpl.
    rewrite lookup_app_l by done. rewrite Hs.
    unfold isLive in Hdead.
    destruct (readyState s); try discriminate; simpl; unfold set_sockets; simpl;
      rewrite ?insert_app_r_alt by done; by rewrite ?Nat.sub_diag. }
  rewrite Hsend, Hw, Ho. simpl.
  repeat split; try done.
  unfold allSent. simpl. rewrite allSent_snoc. simpl. by rewrite app_nil_r.
Qed.

Lemma chat_line_shown_but_lost_after_close_witness :
  allSent (socketOpened 2
             (after (send (setInput (lit "hi") (socketSetState 0 CLOSED readyApp)))))
  = allSent (setInput (lit "hi") (socketSetState 0 CLOSED readyApp))
  ∧ paras (socketOpened 2
             (after (send (setInput (lit "hi") (socketSetState 0 CLOSED readyApp)))))
    = [userPrefix ++ lit "hi"].
Proof.
  pose proof (chat_line_shown_but_lost_after_close
    (setInput (lit "hi") (socketSetState 0 CLOSED readyApp)) 0%nat
    (mkSocket CLOSED [] [])) as H.
  simpl in H. split; apply H; try reflexivity; vm_compute; discriminate.
Defined.

(** ** The message listeners *)

Lemma getProp_defined msg key v key' :
  getProp msg key = Normal v → ∃ v', getProp msg key' = Normal v'.
Proof. destruct msg; simpl; try discriminate; eauto. Qed.

Lemma kinds_differ :
  lit "reply" ≠ lit "chat-reply" ∧ lit "matrix" ≠ lit "chat-reply"
  ∧ lit "matrix" ≠ lit "reply".
Proof. vm_compute. repeat split; discriminate. Qed.

Lemma strictEqualsString_false v s :
  strictEqualsString v s = false ↔ v ≠ JStr s.
Proof.
  rewrite <- strictEqualsString_true. by destruct (strictEqualsString v s).
Qed.

(** FlowingDoc's listener by cases on the kind of a frame that parses to
    something other than [null]. *)
Lemma FlowingDoc_onmessage_cases msg kind targetId text :
  getProp msg (lit "kind") = Normal kind →
  getProp msg (lit "targetId") = Normal targetId →
  getProp msg (lit "text") = Normal text →
  FlowingDoc_onmessage (ParsedValue msg)
  = Normal (if strictEqualsString kind (lit "reply")
            then [HandleReply targetId text]
            else if strictEqualsString kind (lit "chat-reply")
            then [ParasAppendBot text]
            else []).
Proof.
  intros Hk Hid Ht. unfold FlowingDoc_onmessage, FlowingDoc_onmessage_body, onKind.
  rewrite Hk. destruct (strictEqualsString kind (lit "reply")) eqn:E1.
  - apply strictEqualsString_true in E1 as ->. unfold readProp. rewrite Hid, Ht.
    rewrite (proj2 (strictEqualsString_false _ _)); [done|].
    by intros [= H].
  - destruct (strictEqualsString kind (lit "chat-reply")); [|done].
    unfold readProp. by rewrite Ht.
Qed.

Lemma FlowingDoc_onmessage_unreadable data :
  (∀ msg kind, data = ParsedValue msg → getProp msg (lit "kind") ≠ Normal kind) →
  FlowingDoc_onmessage data = Normal [].
Proof.
  intros Hno. destruct data as [|msg]; [done|].
  unfold FlowingDoc_onmessage, FlowingDoc_onmessage_body, onKind.
  destruct (getProp msg (lit "kind")) as [kind|] eqn:Hk; [|done].
  by destruct (Hno msg kind eq_refl).
Qed.

(** X19. FlowingDoc's socket listener never throws. It calls [handleReply]
    with the frame's [targetId] and [text] exactly when the frame parses
    and its kind is "reply"; it appends a bot line with the frame's text to
    the transcript exactly when the kind is "chat-reply"; it hands on at
    most one thing for a frame and nothing for any other frame. *)
Theorem FlowingDoc_listener_dispatch (data : Parsed) :
  (∀ targetId text,
     FlowingDoc_onmessage data = Normal [HandleReply targetId text]
     ↔ ∃ msg, data = ParsedValue msg
              ∧ getProp msg (lit "kind") = Normal (JStr (lit "reply"))
              ∧ getProp msg (lit "targetId") = Normal targetId
              ∧ getProp msg (lit "text") = Normal text)
  ∧ (∀ text,
       FlowingDoc_onmessage data = Normal [ParasAppendBot text]
       ↔ ∃ msg, data = ParsedValue msg
                ∧ getProp msg (lit "kind") = Normal (JStr (lit "chat-reply"))
                ∧ getProp msg (lit "text") = Normal text)
  ∧ (∃ ds, FlowingDoc_onmessage data = Normal ds ∧ (length ds ≤ 1)%nat
           ∧ ∀ d, d ∈ ds → (∃ targetId text, d = HandleReply targetId text)
                           ∨ (∃ text, d = ParasAppendBot text)).
Proof.
  destruct data as [|msg].
  { split; [|split].
    - intros ??. split; [discriminate|]. by intros (? & ? & _).
    - intros ?. split; [discriminate|]. by intros (? & ? & _).
    - exists []. split; [done|]. split; [simpl; lia|]. by intros ? ?%elem_of_nil. }
  destruct (getProp msg (lit "kind")) as [kind|e] eqn:Hk.
  2:{ assert (H0 : FlowingDoc_onmessage (ParsedValue msg) = Normal []).
      { apply FlowingDoc_onmessage_unreadable. intros ? ? [= <-]. by rewrite Hk. }
      rewrite H0. split; [|split].
      - intros ??. split; [discriminate|]. intros (? & [= <-] & Hk' & _). congruence.
      - intros ?. split; [discriminate|]. intros (? & [= <-] & Hk' & _). congruence.
      - exists []. split; [done|]. split; [simpl; lia|]. by intros ? ?%elem_of_nil. }
  destruct (getProp_defined msg _ kind (lit "targetId") Hk) as [tid Hid].
  destruct (getProp_defined msg _ kind (lit "text") Hk) as [txt Ht].
  rewrite (FlowingDoc_onmessage_cases msg kind tid txt Hk Hid Ht).
  destruct (strictEqualsString kind (lit "reply")) eqn:E1;
    [|destruct (strictEqualsString kind (lit "chat-reply")) eqn:E2].
  - apply strictEqualsString_true in E1 as ->. split; [|split].
    + intros ??. split.
      * intros [= <- <-]. eauto.
      * intros (? & [= <-] & _ & Hid' & Ht'). congruence.
    + intros ?. split; [discriminate|].
      intros (? & [= <-] & Hk' & _). rewrite Hk in Hk'. injection Hk' as Hk'.
      by destruct (proj1 kinds_differ).
    + eexists. split; [done|]. split; [simpl; lia|].
      intros d ->%list_elem_of_singleton. eauto.
  - apply strictEqualsString_true in E2 as ->. split; [|split].
    + intros ??. split; [discriminate|].
      intros (? & [= <-] & Hk' & _). rewrite Hk in Hk'. injection Hk' as Hk'.
      by destruct (proj1 kinds_differ).
    + intros ?. split.
      * intros [= <-]. eauto.
      * intros (? & [= <-] & _ & Ht'). congruence.
    + eexists. split; [done|]. split; [simpl; lia|].
      intros d ->%list_elem_of_singleton. eauto.
  - apply strictEqualsString_false in E1, E2. split; [|split].
    + intros ??. split; [discriminate|].
      intros (? & [= <-] & Hk' & _). congruence.
    + intros ?. split; [discriminate|].
      intros (? & [= <-] & Hk' & _). congruence.
    + exists []. split; [done|]. split; [simpl; lia|]. by intros ? ?%elem_of_nil.
Qed.

Lemma ChatBar_handler_cases msg kind text :
  getProp msg (lit "kind") = Normal kind →
  getProp msg (lit "text") = Normal text →
  ChatBar_handler (ParsedValue msg)
  = Normal (if strictEqualsString kind (lit "chat-reply")
            then [DocAppendBot text] else []).
Proof.
  intros Hk Ht. unfold ChatBar_handler, onKind. rewrite Hk.
  destruct (strictEqualsString kind (lit "chat-reply")); [|done].
  unfold readProp. by rewrite Ht.
Qed.

Lemma handleMsg_cases msg kind text :
  getProp msg (lit "kind") = Normal kind →
  getProp msg (lit "text") = Normal text →
  handleMsg (ParsedValue msg)
  = Normal (if strictEqualsString kind (lit "matrix")
            then [Narrative text] else []).
Proof.
  intros Hk Ht. unfold handleMsg, onKind. rewrite Hk.
  destruct (strictEqualsString kind (lit "matrix")); [|done].
  unfold readProp. by rewrite Ht.
Qed.

(** X20. On the shared socket, ChatBar's listener hands on a bot line
    exactly for a frame of kind "chat-reply", and never for a frame that
    MatrixPlayground's listener reacts to. A "reply" frame arriving on the
    shared socket is ignored by both listeners, and a "matrix" frame
    arriving on FlowingDoc's own socket is ignored there: comment replies
    are read from FlowingDoc's socket only and narration from the shared
    socket only. The bot line has the same effect on the transcript
    through either socket. *)
Theorem listeners_split_by_socket (data : Parsed) :
  (∀ text,
     ChatBar_handler data = Normal [DocAppendBot text]
     ↔ ∃ msg, data = ParsedValue msg
              ∧ getProp msg (lit "kind") = Normal (JStr (lit "chat-reply"))
              ∧ getProp msg (lit "text") = Normal text)
  ∧ (dispatched (handleMsg data) = [] ∨ dispatched (ChatBar_handler data) = [])
  ∧ (∀ msg, data = ParsedValue msg →
            getProp msg (lit "kind") = Normal (JStr (lit "reply")) →
            handleMsg data = Normal [] ∧ ChatBar_handler data = Normal [])
  ∧ (∀ msg, data = ParsedValue msg →
            getProp msg (lit "kind") = Normal (JStr (lit "matrix")) →
            FlowingDoc_onmessage data = Normal [])
  ∧ (∀ page v a, perform page (DocAppendBot v) a = perform page (ParasAppendBot v) a).
Proof.
  split; [|split; [|split; [|split]]].
  - intros text. destruct data as [|msg].
    { split; [discriminate|]. by intros (? & ? & _). }
    destruct (getProp msg (lit "kind")) as [kind|e] eqn:Hk.
    2:{ unfold ChatBar_handler, onKind. rewrite Hk. split; [discriminate|].
        intros (? & [= <-] & Hk' & _). congruence. }
    destruct (getProp_defined msg _ kind (lit "text") Hk) as [txt Ht].
    rewrite (ChatBar_handler_cases msg kind txt Hk Ht).
    destruct (strictEqualsString kind (lit "chat-reply")) eqn:E.
    + apply strictEqualsString_true in E as ->. split.
      * intros [= <-]. eauto.
      * intros (? & [= <-] & _ & Ht'). congruence.
    + apply strictEqualsString_false in E. split; [discriminate|].
      intros (? & [= <-] & Hk' & _). congruence.
  - destruct data as [|msg]; [by left|].
    destruct (getProp msg (lit "kind")) as [kind|e] eqn:Hk.
    2:{ left. unfold handleMsg, onKind. by rewrite Hk. }
    destruct (getProp_defined msg _ kind (lit "text") Hk) as [txt Ht].
    rewrite (ChatBar_handler_cases msg kind txt Hk Ht),
      (handleMsg_cases msg kind txt Hk Ht).
    destruct (strictEqualsString kind (lit "matrix")) eqn:E; [|by left].
    apply strictEqualsString_true in E as ->. right.
    rewrite (proj2 (strictEqualsString_false _ _)); [done|]. by intros [= H].
  - intros msg -> Hk.
    destruct (getProp_defined msg _ _ (lit "text") Hk) as [txt Ht].
    rewrite (ChatBar_handler_cases msg _ txt Hk Ht),
      (handleMsg_cases msg _ txt Hk Ht).
    rewrite !(proj2 (strictEqualsString_false _ _)); [done| |]; by intros [= H].
  - intros msg -> Hk.
    destruct (getProp_defined msg _ _ (lit "text") Hk) as [txt Ht].
    destruct (getProp_defined msg _ _ (lit "targetId") Hk) as [tid Hid].
    rewrite (FlowingDoc_onmessage_cases msg _ tid txt Hk Hid Ht).
    rewrite !(proj2 (strictEqualsString_false _ _)); [done| |]; by intros [= H].
  - intros page v a. by destruct v.
Qed.

(** X21. NarrativePane's listener pushes a sentence exactly for a frame of
    kind "matrix" and inserts a reply exactly for a frame of kind "reply",
    never both for one frame; with no try/catch around [JSON.parse], a
    frame that is not JSON makes it throw. *)
Theorem NarrativePane_listener_dispatch (msg kind text : JsValue) :
  getProp msg (lit "kind") = Normal kind →
  getProp msg (lit "text") = Normal text →
  NarrativePane_onmessage (ParsedValue msg)
  = Normal (if strictEqualsString kind (lit "matrix") then [PushSentence text]
            else if strictEqualsString kind (lit "reply") then [InsertReply msg]
            else [])
  ∧ NarrativePane_onmessage ParseError = Throw SyntaxError
  ∧ NarrativePane_onmessage (ParsedValue JNull) = Throw TypeError.
Proof.
  intros Hk Ht. split; [|done]. unfold NarrativePane_onmessage. rewrite Hk.
  destruct (strictEqualsString kind (lit "matrix")) eqn:E1.
  - rewrite Ht. apply strictEqualsString_true in E1 as ->.
    rewrite (proj2 (strictEqualsString_false _ _)); [done|]. by intros [= H].
  - simpl. by destruct (strictEqualsString kind (lit "reply")).
Qed.

Lemma NarrativePane_listener_dispatch_witness :
  NarrativePane_onmessage (textFrame "matrix" "Determinant flipped sign")
  = Normal [PushSentence (JStr (lit "Determinant flipped sign"))].
Proof.
  refine (proj1 (NarrativePane_listener_dispatch
    (JObj [(lit "kind", JStr (lit "matrix"));
           (lit "text", JStr (lit "Determinant flipped sign"))])
    (JStr (lit "matrix")) (JStr (lit "Determinant flipped sign")) _ _));
    reflexivity.
Defined.

(** ** NarrativePane's sentences *)

Lemma pushSentence_short text s :
  (length s ≤ 9)%nat → pushSentence text s = s ++ [text].
Proof.
  intros Hl. unfold pushSentence.
  replace (length s - 9)%nat with 0%nat by lia. by rewrite drop_0.
Qed.

Lemma pushSentences_last_ten texts s0 :
  (length s0 ≤ 10)%nat →
  foldl (λ s text, pushSentence text s) s0 texts
  = drop (length (s0 ++ texts) - 10) (s0 ++ texts).
Proof.
  revert s0. induction texts as [|t texts IH]; intros s0 Hl; simpl.
  - rewrite app_nil_r. replace (length s0 - 10)%nat with 0%nat by lia.
    by rewrite drop_0.
  - assert (Hpush : (length (pushSentence t s0) ≤ 10)%nat).
    { unfold pushSentence. rewrite length_app, length_drop. simpl. lia. }
    rewrite (IH _ Hpush).
    destruct (decide (length s0 ≤ 9)%nat) as [Hs|Hs].
    + rewrite (pushSentence_short t s0 Hs). by rewrite <- app_assoc.
    + unfold pushSentence. replace (length s0 - 9)%nat with 1%nat by lia.
      destruct s0 as [|x s0]; [simpl in *; lia|].
      assert (Hnine : length s0 = 9%nat) by (simpl in *; lia).
      cbn [drop]. rewrite drop_0, <- app_assoc. cbn [app length].
      rewrite !length_app. cbn [length]. rewrite Hnine.
      replace (9 + S (length texts) - 10)%nat with (length texts) by lia.
      replace (S (9 + S (length texts)) - 10)%nat with (S (length texts)) by lia.
      reflexivity.
Qed.

(** X22. NarrativePane keeps the last ten narration sentences: after any
    number of "matrix" frames, starting from the empty pane, its sentence
    list is the last ten texts received (all of them while fewer than ten
    have come), in order of arrival. *)
Theorem NarrativePane_shows_last_ten (texts : list jsstring) :
  let shown := foldl (λ s text, pushSentence text s) [] texts in
  shown = drop (length texts - 10) texts
  ∧ length shown = Nat.min (length texts) 10
  ∧ shown `suffix_of` texts.
Proof.
  intros shown. subst shown.
  rewrite (pushSentences_last_ten texts []) by (simpl; lia). simpl.
  split; [done|]. split; [rewrite length_drop; lia | apply suffix_drop].
Qed.

(** ** ChatDrawer *)

(** X23. On an open socket ChatDrawer's [send] logs the user's line, hands
    one chat frame with the text as typed to the socket and clears the box,
    so that pressing Send again at once does nothing. With blank text, or
    before the socket exists, [send] does nothing at all. *)
Theorem ChatDrawer_send_once (c : ChatDrawer) (sent : list Frame) :
  drawerSocket c = Some (OPEN, sent) →
  trim (drawerInput c) ≠ [] →
  ChatDrawer_send c
  = (None, mkChatDrawer (drawerLog c ++ [(senderUser, drawerInput c)]) []
             (Some (OPEN, sent ++ [ChatFrame (drawerInput c)])))
  ∧ ChatDrawer_send (ChatDrawer_send c).2 = (None, (ChatDrawer_send c).2)
  ∧ (∀ c0, trim (drawerInput c0) = [] ∨ drawerSocket c0 = None →
           ChatDrawer_send c0 = (None, c0)).
Proof.
  intros Hs Ht.
  assert (H1 : ChatDrawer_send c
    = (None, mkChatDrawer (drawerLog c ++ [(senderUser, drawerInput c)]) []
               (Some (OPEN, sent ++ [ChatFrame (drawerInput c)])))).
  { unfold ChatDrawer_send. rewrite Hs.
    by rewrite (proj2 (truthy_nonempty _) Ht). }
  split; [done|]. split; [by rewrite H1|].
  intros c0 [H0|H0]; unfold ChatDrawer_send.
  - destruct (drawerSocket c0) as [[r q]|]; [|done]. by rewrite H0.
  - by rewrite H0.
Qed.

Lemma ChatDrawer_send_once_witness :
  ChatDrawer_send (mkChatDrawer [] (lit "what is an eigenvector?") (Some (OPEN, [])))
  = (None, mkChatDrawer [(senderUser, lit "what is an eigenvector?")] []
             (Some (OPEN, [ChatFrame (lit "what is an eigenvector?")]))).
Proof.
  refine (proj1 (ChatDrawer_send_once
    (mkChatDrawer [] (lit "what is an eigenvector?") (Some (OPEN, []))) [] eq_refl _)).
  vm_compute. discriminate.
Defined.

(** X24. While its socket is still connecting, ChatDrawer's [send] logs the
    user's line and then fails in [send] with an InvalidStateError: nothing
    is sent and the box keeps its text, so every further press logs the
    same line again. After [n] presses the log has grown by [n] copies of
    the line and the socket has received nothing. *)
Theorem ChatDrawer_send_while_connecting
    (n : nat) (c : ChatDrawer) (sent : list Frame) :
  drawerSocket c = Some (CONNECTING, sent) →
  trim (drawerInput c) ≠ [] →
  (ChatDrawer_send c).1 = Some InvalidStateError
  ∧ Nat.iter n (λ acc, (ChatDrawer_send acc).2) c
    = mkChatDrawer (drawerLog c ++ replicate n (senderUser, drawerInput c))
        (drawerInput c) (Some (CONNECTING, sent)).
Proof.
  intros Hs Ht.
  assert (Hstep : ∀ log, ChatDrawer_send
      (mkChatDrawer log (drawerInput c) (Some (CONNECTING, sent)))
    = (Some InvalidStateError,
       mkChatDrawer (log ++ [(senderUser, drawerInput c)]) (drawerInput c)
         (Some (CONNECTING, sent)))).
  { intros log. unfold ChatDrawer_send. simpl.
    by rewrite (proj2 (truthy_nonempty _) Ht). }
  split.
  - destruct c as [log inp sock]. simpl in *. subst sock. by rewrite Hstep.
  - induction n as [|n IH]; simpl.
    + rewrite app_nil_r. destruct c. simpl in *. by subst.
    + rewrite IH, Hstep. simpl. rewrite <- app_assoc. do 2 f_equal.
      symmetry. apply replicate_cons_app.
Qed.

Lemma ChatDrawer_send_while_connecting_witness :
  drawerLog (Nat.iter 3 (λ acc, (ChatDrawer_send acc).2)
               (mkChatDrawer [] (lit "hello") (Some (CONNECTING, []))))
  = replicate 3 (senderUser, lit "hello").
Proof.
  rewrite (proj2 (ChatDrawer_send_while_connecting 3
    (mkChatDrawer [] (lit "hello") (Some (CONNECTING, []))) [] eq_refl
    ltac:(vm_compute; discriminate))).
  reflexivity.
Defined.

(** ** The bubble's header line *)

Lemma highlightedLabel_length (t : jsstring) :
  length (highlightedLabel t) = (Nat.min (length t) 45 + 2)%nat.
Proof.
  unfold highlightedLabel. destruct (45 <? length t)%nat eqn:E.
  - apply Nat.ltb_lt in E. cbn [length]. rewrite !length_app, length_take.
    change (length (lit "...")) with 3%nat. cbn [length]. lia.
  - apply Nat.ltb_ge in E. cbn [length]. rewrite length_app. cbn [length]. lia.
Qed.

Lemma createCommentBubble_label_length (t : jsstring) :
  length (createCommentBubble_label t) = (length t + 2)%nat.
Proof.
  unfold createCommentBubble_label. cbn [length]. rewrite length_app.
  cbn [length]. lia.
Qed.

(** X25. The two header lines of a bubble. When [handleReply] or
    [updateBubbleContent] rebuilds a bubble, the header is the highlighted
    text between double quotes when the text has at most 45 code units,
    and otherwise its first 42 code units followed by three dots: that
    line never exceeds 47 code units and begins with the first 42 code
    units of the text. The header that [createCommentBubble] writes above
    the comment form of a new bubble is not cut: it is the whole text
    between double quotes, of any length, and the two headers are the same
    exactly when the text has at most 45 code units. *)
Theorem bubble_header_lines (t : jsstring) :
  length (highlightedLabel t) = (Nat.min (length t) 45 + 2)%nat
  ∧ take 42 t `prefix_of` drop 1 (highlightedLabel t)
  ∧ ((length t ≤ 45)%nat → highlightedLabel t = 34 :: t ++ [34])
  ∧ ((45 < length t)%nat →
     highlightedLabel t = 34 :: take 42 t ++ lit "..." ++ [34])
  ∧ createCommentBubble_label t = 34 :: t ++ [34]
  ∧ length (createCommentBubble_label t) = (length t + 2)%nat
  ∧ (createCommentBubble_label t = highlightedLabel t ↔ (length t ≤ 45)%nat).
Proof.
  split; [apply highlightedLabel_length|].
  split; [|split; [|split; [|split; [done|split;
    [apply createCommentBubble_label_length|]]]]].
  - unfold highlightedLabel. destruct (45 <? length t)%nat; simpl.
    + rewrite drop_0, <- app_assoc. by eexists.
    + rewrite drop_0. etrans; [apply prefix_take|]. by eexists.
  - intros E%Nat.ltb_ge. unfold highlightedLabel. by rewrite E.
  - intros E%Nat.ltb_lt. unfold highlightedLabel. by rewrite E, <- app_assoc.
  - split.
    + intros Heq. apply (f_equal length) in Heq.
      rewrite createCommentBubble_label_length, highlightedLabel_length in Heq. lia.
    + intros E%Nat.ltb_ge. unfold highlightedLabel, createCommentBubble_label.
      by rewrite E.
Qed.

Lemma new_bubble_header_not_cut :
  length (createCommentBubble_label (replicate 46 120)) = 48%nat
  ∧ length (highlightedLabel (replicate 46 120)) = 47%nat.
Proof. split; reflexivity. Qed.

(** ** Witnesses for two invariants stated earlier *)

Lemma run_commentsAreLatest_witness :
  Forall commentsAreLatest (run exampleTrace readyApp).
Proof.
  apply (run_commentsAreLatest exampleTrace readyApp).
  exact readyApp_commentsAreLatest.
Defined.

Lemma unknown_kind_ignored_witness :
  handleMsg (textFrame "comment" "hello") = Normal []
  ∧ ChatBar_handler (textFrame "comment" "hello") = Normal []
  ∧ FlowingDoc_onmessage (textFrame "comment" "hello") = Normal [].
Proof.
  apply (unknown_kind_ignored
    (JObj [(lit "kind", JStr (lit "comment")); (lit "text", JStr (lit "hello"))])
    (JStr (lit "comment")) eq_refl); vm_compute; discriminate.
Defined.

(** ** Runs of the page *)

Lemma awaitingReply_same_entry id a a' :
  bubbleMessages a' !! id = bubbleMessages a !! id →
  awaitingReply id a' = awaitingReply id a.
Proof. unfold awaitingReply. by intros ->. Qed.

Lemma allAlternate_same_store a a' :
  bubbleMessages a' = bubbleMessages a → allAlternate a → allAlternate a'.
Proof. intros He Ha id. unfold readThread. rewrite He. apply Ha. Qed.

(** Once a reply has been handled the anchor is not waiting, whatever its
    entry was. *)
Lemma handleReply_not_awaiting dom id text a :
  awaitingReply id (after (handleReply dom id text a)) = false.
Proof.
  unfold awaitingReply. rewrite handleReply_store.
  destruct (bubbleMessages a !! id) as [b|] eqn:Hb.
  - rewrite (handleReply_updater_some _ _ _ _ b Hb), lookup_insert_eq. simpl.
    unfold repliedHistory.
    destruct (last (historyOrEmpty (conversationHistory b))) as [t|] eqn:Hl.
    + case_bool_decide as Hr.
      * by rewrite last_snoc.
      * rewrite Hl. by rewrite bool_decide_eq_false_2.
    + by destruct (truthy (userComment b)).
  - destruct (inheritedProperty id) eqn:Hi.
    + by rewrite (handleReply_updater_inherited _ _ _ _ Hb Hi), lookup_insert_eq.
    + by rewrite (handleReply_updater_none _ _ _ _ Hb Hi), lookup_insert_eq.
Qed.

(** The comment form replaces the thread by the single turn it submits, so
    it keeps alternation in every state. *)
Lemma commentForm_onsubmit_alternates dom snapshot id h value a :
  allAlternate a →
  allAlternate (after (commentForm_onsubmit dom snapshot id h value a)).
Proof.
  intros Ha. unfold commentForm_onsubmit.
  destruct (negb (commentGuard (trim value) a)); [done|].
  apply allAlternate_store. rewrite (proj1 (flowingDocSend_store _ _)).
  apply allAlternate_store, updateBubbleContent_alternates.
  apply allAlternate_store. simpl.
  apply storeAlternates_insert; [by apply allAlternate_store | done].
Qed.

(** The sockets and the chat bar never touch the store. *)
Lemma getWebSocket_store a : bubbleMessages (getWebSocket a).2 = bubbleMessages a.
Proof.
  unfold getWebSocket. destruct (ws a) as [i|]; [|done].
  by destruct (readyState <$> sockets a !! i) as [[]|].
Qed.

Lemma runCallback_store cb a :
  bubbleMessages (after (runCallback cb a)) = bubbleMessages a.
Proof.
  destruct cb as [text]. unfold runCallback.
  assert (Hsend : ∀ i a1,
    bubbleMessages (after (andThen (socketSend i (ChatFrame text) a1)
      (λ a2, completes (setInput [] (appendHandler (userPrefix ++ text) a2)))))
    = bubbleMessages a1).
  { intros i a1. unfold andThen.
    pose proof (proj1 (socketSend_store i (ChatFrame text) a1)) as Hs.
    by destruct (thrown (socketSend i (ChatFrame text) a1)). }
  destruct (chatBarWs a) as [i|]; [apply Hsend|].
  pose proof (getWebSocket_store a) as Hg.
  destruct (getWebSocket a) as [i a1]. simpl in Hg. by rewrite Hsend.
Qed.

Lemma whenSocketOpen_store cb a :
  bubbleMessages (after (whenSocketOpen cb a)) = bubbleMessages a.
Proof.
  unfold whenSocketOpen. pose proof (getWebSocket_store a) as Hg.
  destruct (getWebSocket a) as [i a1]. simpl in Hg.
  destruct (sockets a1 !! i) as [s|]; [|done].
  destruct (readyState s); try done. by rewrite runCallback_store.
Qed.

Lemma foldl_runCallback_store cbs a :
  bubbleMessages (foldl (λ acc cb, after (runCallback cb acc)) a cbs)
  = bubbleMessages a.
Proof.
  revert a. induction cbs as [|cb cbs IH]; intros a; simpl; [done|].
  by rewrite IH, runCallback_store.
Qed.

Lemma socketOpened_store i a : bubbleMessages (socketOpened i a) = bubbleMessages a.
Proof.
  unfold socketOpened. destruct (sockets a !! i) as [s|]; [|done].
  by rewrite foldl_runCallback_store.
Qed.

Lemma stepShared_store op a : bubbleMessages (stepShared op a) = bubbleMessages a.
Proof.
  destruct op; simpl.
  - apply getWebSocket_store.
  - unfold ChatBar_mount. pose proof (getWebSocket_store a) as Hg.
    by destruct (getWebSocket a).
  - unfold send. simpl. destruct (negb _); [done|].
    by rewrite whenSocketOpen_store.
  - apply socketOpened_store.
  - unfold socketSetState. by destruct (sockets a !! i).
Qed.

(** One event keeps alternation, and keeps the follow-up forms on anchors
    that are not waiting. *)
Lemma pageStep_invariant dom ev p :
  allAlternate (pageApp p) → followUpFormsOnIdle p →
  allAlternate (pageApp (pageStep dom ev p))
  ∧ followUpFormsOnIdle (pageStep dom ev p).
Proof.
  intros Ha Hf. destruct ev as [now highlighted|targetId h value|targetId h value
                                |targetId text|detail|detail|op].
  - (* a selection: a draft entry and the comment form *)
    split.
    + by apply (step_alternates dom (createAnchor now highlighted)).
    + intros id. unfold pageStep. cbn [bubbleForms pageApp].
      destruct (decide (id = anchorId now)) as [->|Hne].
      * unfold createCommentOnSelection, createCommentBubble. cbn [snd].
        destruct (bool_decide _ && docRef _) eqn:Hc.
        -- rewrite lookup_insert_eq. discriminate.
        -- apply andb_false_iff in Hc as [-> | ->]; simpl;
             rewrite ?orb_true_r; apply Hf.
      * intros Hform.
        rewrite (awaitingReply_same_entry id (pageApp p)).
        -- apply Hf. destruct (bool_decide _ && docRef _); [|done].
           by rewrite lookup_insert_ne in Hform.
        -- by apply (step_entry_elsewhere dom (createAnchor now highlighted)
                       (pageApp p) (anchorId now) id).
  - (* the comment form *)
    unfold pageStep.
    destruct (bubbleForms p !! targetId) as [[|]|] eqn:Hform; try done.
    cbn [pageApp bubbleForms]. split.
    + by apply commentForm_onsubmit_alternates.
    + intros id.
      destruct (commentGuard (trim value) (pageApp p)
                && bool_decide (targetId ∈ bubbleContent dom)); intros Hid.
      all: cbn [bubbleForms pageApp] in Hid |- *.
      all: destruct (decide (id = targetId)) as [->|Hne];
        [first [by rewrite lookup_delete_eq in Hid | congruence]|].
      all: rewrite ?lookup_delete_ne in Hid by done.
      all: rewrite (awaitingReply_same_entry id (pageApp p)); [by apply Hf|].
      all: by apply (step_entry_elsewhere dom (submitInitial ∅ targetId h value)
                       (pageApp p) targetId id).
  - (* the follow-up form: its anchor is not waiting *)
    unfold pageStep.
    destruct (bubbleForms p !! targetId) as [[|]|] eqn:Hform; try done.
    cbn [pageApp bubbleForms]. pose proof (Hf targetId Hform) as Hidle. split.
    + apply (step_alternates dom (submitReplyFollowUp targetId h value)); [done|].
      simpl. by rewrite Hidle.
    + intros id Hid. cbn [bubbleForms pageApp] in Hid |- *.
      destruct (commentGuard (trim value) (pageApp p)) eqn:Hg.
      * destruct (decide (id = targetId)) as [->|Hne];
          [by rewrite lookup_delete_eq in Hid|].
        rewrite lookup_delete_ne in Hid by done.
        rewrite (awaitingReply_same_entry id (pageApp p)); [by apply Hf|].
        by apply (step_entry_elsewhere dom (submitReplyFollowUp targetId h value)
                    (pageApp p) targetId id).
      * unfold replyFollowUp_click. rewrite Hg. by apply Hf.
  - (* a reply: the anchor is not waiting afterwards *)
    split.
    + by apply (step_alternates dom (applyAssistantReply targetId text)).
    + intros id. unfold pageStep. cbn [bubbleForms pageApp].
      destruct (decide (id = targetId)) as [->|Hne];
        [intros _; apply handleReply_not_awaiting|].
      intros Hid. rewrite (awaitingReply_same_entry id (pageApp p)).
      * apply Hf. destruct (bool_decide _); [|done].
        by rewrite lookup_insert_ne in Hid.
      * by apply (step_entry_elsewhere dom (applyAssistantReply targetId text)
                    (pageApp p) targetId id).
  - (* the session reset: no entry is left *)
    split.
    + by apply (step_alternates dom (sessionReset detail)).
    + intros id _. unfold awaitingReply. simpl. by rewrite lookup_empty.
  - split; [by apply (allAlternate_same_store (pageApp p))|].
    intros id Hid. by apply Hf.
  - split.
    + apply (allAlternate_same_store (pageApp p)); [apply stepShared_store|done].
    + intros id Hid. simpl.
      rewrite (awaitingReply_same_entry id (pageApp p)); [by apply Hf|].
      by rewrite stepShared_store.
Qed.

Lemma pageRun_invariant events p :
  allAlternate (pageApp p) → followUpFormsOnIdle p →
  Forall (λ q, allAlternate (pageApp q) ∧ followUpFormsOnIdle q) (pageRun events p).
Proof.
  revert p. induction events as [|[dom ev] rest IH]; intros p Ha Hf; simpl.
  - constructor.
  - destruct (pageStep_invariant dom ev p Ha Hf) as [Ha' Hf'].
    constructor; [done|]. by apply IH.
Qed.

Lemma mountedPage_invariant :
  allAlternate (pageApp mountedPage) ∧ followUpFormsOnIdle mountedPage.
Proof. split; [intros id; reflexivity|]. intros id Hid. done. Qed.

(** C1. On the page, the turn roles of every thread alternate strictly,
    starting with USER, after each event of every run: selections, submits
    of the comment form and of the follow-up form, replies in any number
    and order and for any id (duplicated, unsolicited, for an anchor that
    has no entry), session resets, chat lines and socket events. A user
    turn is never added to a thread that waits for a reply, because the
    page holds a follow-up form only for an anchor that is not waiting:
    the form is built when a reply is rendered and removed by its own
    submit, and the comment form replaces the thread by its single turn. *)
Theorem alternation_kept_on_the_page (events : list (Dom * PageEvent)) :
  Forall (λ p, allAlternate (pageApp p) ∧ followUpFormsOnIdle p)
         (pageRun events mountedPage).
Proof.
  apply pageRun_invariant; apply mountedPage_invariant.
Qed.

(** The example session: the duplicated reply is not stored twice, the
    second click on the follow-up form finds no form, and the thread ends
    as USER, ASSISTANT, USER, ASSISTANT. *)
Lemma examplePageRun_thread :
  (readThread (lit "sel-1") ∘ pageApp <$> pageRun examplePageRun mountedPage)
  = [ []; []; [];
      [];
      [mkTurn user (lit "why?"); mkTurn ai (lit "because...")];
      [mkTurn user (lit "why?"); mkTurn ai (lit "because...")];
      [mkTurn user (lit "why?"); mkTurn ai (lit "because...");
       mkTurn user (lit "and then?")];
      [mkTurn user (lit "why?"); mkTurn ai (lit "because...");
       mkTurn user (lit "and then?")];
      [mkTurn user (lit "why?"); mkTurn ai (lit "because...");
       mkTurn user (lit "and then?"); mkTurn ai (lit "then this")] ].
Proof. vm_compute. reflexivity. Qed.
